(** * QCM.py: a Streamlit quiz generator, embedded and verified

    The script of [src/QCM.py] is embedded function by function: Python
    strings are sequences of Unicode code points, decoded JSON is an
    inductive type whose objects are finite maps, the Streamlit session
    state is a record, and a run of the script is a computation in a
    state, trace and exception monad.  Library code the script calls
    ([json.loads], the Gemini client, [random.randint], the widgets) is
    taken as a parameter of the run. *)

From Stdlib Require Import ZArith NArith String Ascii List Floats DecimalString.
From stdpp Require Import base tactics option list numbers countable gmap sorting.

Open Scope Z_scope.

(** ** Python [str]: sequences of code points *)

Definition char := N.
Definition str := list N.

Fixpoint bytes_of (s : string) : list N :=
  match s with
  | EmptyString => []
  | String c s' => N_of_ascii c :: bytes_of s'
  end.

(** Literals are written in UTF-8 in this file; [utf8_decode] gives the
    code points Python sees. *)
Fixpoint utf8_decode (bs : list N) : str :=
  match bs with
  | [] => []
  | b0 :: rest =>
      if (b0 <? 128)%N then b0 :: utf8_decode rest
      else if (b0 <? 224)%N then
        match rest with
        | b1 :: r => ((b0 - 192) * 64 + (b1 - 128))%N :: utf8_decode r
        | _ => []
        end
      else if (b0 <? 240)%N then
        match rest with
        | b1 :: b2 :: r =>
            ((b0 - 224) * 4096 + (b1 - 128) * 64 + (b2 - 128))%N :: utf8_decode r
        | _ => []
        end
      else
        match rest with
        | b1 :: b2 :: b3 :: r =>
            ((b0 - 240) * 262144 + (b1 - 128) * 4096 + (b2 - 128) * 64 + (b3 - 128))%N
              :: utf8_decode r
        | _ => []
        end
  end.

Definition u (s : string) : str := utf8_decode (bytes_of s).

Definition dquote : str := [34%N].
Definition newline : str := [10%N].

(** [str.isspace] for one character (CPython's [_PyUnicode_IsWhitespace]). *)
Definition isspace (c : char) : bool :=
  ((9 <=? c) && (c <=? 13) || (28 <=? c) && (c <=? 32) || (c =? 133) || (c =? 160)
   || (c =? 5760) || (8192 <=? c) && (c <=? 8202) || (c =? 8232) || (c =? 8233)
   || (c =? 8239) || (c =? 8287) || (c =? 12288))%N.

(** Line boundaries of [str.splitlines] (CPython's [_PyUnicode_IsLinebreak]). *)
Definition islinebreak (c : char) : bool :=
  ((10 <=? c) && (c <=? 13) || (28 <=? c) && (c <=? 30) || (c =? 133)
   || (c =? 8232) || (c =? 8233))%N.

Fixpoint lstrip (s : str) : str :=
  match s with
  | [] => []
  | c :: s' => if isspace c then lstrip s' else s
  end.

Definition rstrip (s : str) : str := rev (lstrip (rev s)).

(** [s.strip()] *)
Definition strip (s : str) : str := rstrip (lstrip s).

Fixpoint startswith (s p : str) {struct p} : bool :=
  match p, s with
  | [], _ => true
  | _ :: _, [] => false
  | y :: p', x :: s' => (x =? y)%N && startswith s' p'
  end.

Definition endswith (s p : str) : bool := startswith (rev s) (rev p).

(** [s[n:]] and [s[:-n]] for a literal length [n > 0]. *)
Definition slice_from {A} (n : nat) (s : list A) : list A := drop n s.
Definition slice_to_minus {A} (n : nat) (s : list A) : list A :=
  take (length s - n)%nat s.

(** [sep.join(parts)] *)
Fixpoint join (sep : str) (parts : list str) : str :=
  match parts with
  | [] => []
  | [p] => p
  | p :: ps => p ++ sep ++ join sep ps
  end.

(** [s.splitlines()]: [cur] is the line being read. *)
Fixpoint splitlines_from (cur : str) (s : str) : list str :=
  match s with
  | [] => match cur with [] => [] | _ => [cur] end
  | c :: s' =>
      if islinebreak c then
        match s' with
        | c' :: s'' =>
            if (c =? 13)%N && (c' =? 10)%N then cur :: splitlines_from [] s''
            else cur :: splitlines_from [] s'
        | [] => cur :: splitlines_from [] s'
        end
      else splitlines_from (cur ++ [c]) s'
  end.

Definition splitlines (s : str) : list str := splitlines_from [] s.

(** Truth value of a string: non-empty. *)
Definition str_truthy (s : str) : bool :=
  match s with [] => false | _ => true end.

(** Comparison of strings, by code point, as [<=] on [str]. *)
Fixpoint str_leb (a b : str) : bool :=
  match a, b with
  | [], _ => true
  | _ :: _, [] => false
  | x :: a', y :: b' =>
      if (x <? y)%N then true else if (x =? y)%N then str_leb a' b' else false
  end.

Definition str_le (a b : str) : Prop := str_leb a b = true.

Global Instance str_le_dec a b : Decision (str_le a b).
Proof. unfold str_le. apply _. Defined.

(** [sorted(keys)] on strings.  The order is total and antisymmetric, so the
    sorted arrangement of a list is unique (lemma [sorted_strs_unique]) and
    does not depend on the sorting algorithm. *)
Definition sorted_strs (l : list str) : list str := merge_sort str_le l.


(** ** Values decoded by [json.loads] *)

(** [None], [bool], [int], [float], [str], [list] and [dict] with string
    keys.  The script never iterates over a dict in insertion order (only
    over its sorted keys), so a dict is a finite map. *)
#[warnings="-register-all"]
Inductive json :=
| JNull
| JBool (b : bool)
| JInt (n : Z)
| JFloat (f : float)
| JStr (s : str)
| JArr (l : list json)
| JObj (d : gmap str json).

Abbreviation dict := (gmap str json).

(** Name of the Python type of a value, as error messages print it. *)
Definition type_name (v : json) : str :=
  match v with
  | JNull => u "NoneType"
  | JBool _ => u "bool"
  | JInt _ => u "int"
  | JFloat _ => u "float"
  | JStr _ => u "str"
  | JArr _ => u "list"
  | JObj _ => u "dict"
  end.

(** ** Exceptions *)

Inductive exn :=
| JSONDecodeError (msg : str)      (* json.JSONDecodeError and its subclasses *)
| KeyError (key : str)              (* KeyError(key), its one argument a string *)
| TypeError (msg : str)
| AttributeError (msg : str)
| UnboundLocalError (name : str)
| LibraryError (msg : str)         (* any other Exception raised by a library *)
| RerunException.                  (* raised by st.rerun(); not an Exception *)

(** [isinstance(e, json.JSONDecodeError)] *)
Definition is_JSONDecodeError (e : exn) : bool :=
  match e with JSONDecodeError _ => true | _ => false end.

(** [isinstance(e, Exception)] *)
Definition is_Exception (e : exn) : bool :=
  match e with RerunException => false | _ => true end.

Abbreviation result A := (exn + A)%type.

(** ** Operations on decoded values *)

(** [d[k]] on a dict *)
Definition dict_getitem (d : gmap str json) (k : str) : result json :=
  match d !! k with
  | Some v => inr v
  | None => inl (KeyError k)
  end.

(** [v[k]] with a string [k] *)
Definition subscript (v : json) (k : str) : result json :=
  match v with
  | JObj d => dict_getitem d k
  | JArr _ => inl (TypeError (u "list indices must be integers or slices, not str"))
  | JStr _ => inl (TypeError (u "string indices must be integers, not 'str'"))
  | _ => inl (TypeError (u "'" ++ type_name v ++ u "' object is not subscriptable"))
  end.

(** [v[k] = x] with a string [k]; a dict is updated in place, which the
    result stands for. *)
Definition setitem (v : json) (k : str) (x : json) : result (gmap str json) :=
  match v with
  | JObj d => inr (<[k := x]> d)
  | JArr _ => inl (TypeError (u "list indices must be integers or slices, not str"))
  | _ => inl (TypeError (u "'" ++ type_name v ++ u "' object does not support item assignment"))
  end.

(** [v.keys()] *)
Definition py_keys (v : json) : result (list str) :=
  match v with
  | JObj d => inr (map_to_list d).*1
  | _ => inl (AttributeError (u "'" ++ type_name v ++ u "' object has no attribute 'keys'"))
  end.

(** [v.get(k, default)] *)
Definition py_get (v : json) (k : str) (default : json) : result json :=
  match v with
  | JObj d => inr (match d !! k with Some x => x | None => default end)
  | _ => inl (AttributeError (u "'" ++ type_name v ++ u "' object has no attribute 'get'"))
  end.

(** [s == v] for a string [s]: a string equals no value of another type. *)
Definition py_eq_str (s : str) (v : json) : bool :=
  match v with
  | JStr s' => bool_decide (s = s')
  | _ => false
  end.

(** [xs == ys] between a list of strings and a list of decoded values. *)
Fixpoint list_eq (xs : list str) (ys : list json) : bool :=
  match xs, ys with
  | [], [] => true
  | x :: xs', y :: ys' => py_eq_str x y && list_eq xs' ys'
  | _, _ => false
  end.

(** [key in ys] *)
Definition py_in (key : str) (ys : list json) : bool := existsb (py_eq_str key) ys.

(** The strings of a list whose elements are all strings. *)
Fixpoint strs_of (l : list json) : option (list str) :=
  match l with
  | [] => Some []
  | JStr s :: l' => match strs_of l' with Some ss => Some (s :: ss) | None => None end
  | _ :: _ => None
  end.

(** [lines[i:j]] with Python's treatment of negative and overlong bounds. *)
Definition slice_bound (len i : Z) : Z :=
  if i <? 0 then Z.max 0 (i + len) else Z.min i len.

Definition py_slice {A} (l : list A) (i j : Z) : list A :=
  let len := Z.of_nat (length l) in
  let lo := slice_bound len i in
  let hi := slice_bound len j in
  take (Z.to_nat (hi - lo)) (drop (Z.to_nat lo) l).

(** [str(n)] for a length. *)
Definition decimal (n : nat) : str := bytes_of (NilEmpty.string_of_uint (Nat.to_uint n)).

(** ** The Gemini client *)

Record response := { text : result str }.

(** [gemini_model.generate_content(prompt, generation_config=...)], with the
    sampling temperature of the configuration. *)
Record model := { generate_content : str -> float -> result response }.

(** ** Library code, a parameter of the script *)

Record runtime := {
  (** [json.loads] *)
  json_loads : str -> result json;
  (** [str(v)] of a decoded value that is not a string *)
  str_of_value : json -> str;
  (** [sorted(l)] for a list that holds a value that is not a string *)
  sorted_other : list json -> result (list json);
  (** [genai.configure(api_key=...)] then [genai.GenerativeModel(name)] *)
  GenerativeModel : str -> str -> result model;
  (** [chr(c).isprintable()] for a code point above 127, from the Unicode
      data of the interpreter *)
  isprintable : N -> bool;
}.

(** ** The text of an exception *)

(** A digit of [0123456789abcdef]. *)
Definition hex_digit (n : N) : N := (if n <? 10 then 48 + n else 87 + n)%N.

(** [n] in hexadecimal on [width] digits. *)
Fixpoint hex_fixed (width : nat) (n : N) : str :=
  match width with
  | O => []
  | S width' => hex_fixed width' (n / 16)%N ++ [hex_digit (n mod 16)%N]
  end.

Definition backslash : N := 92%N.
Definition single_quote : N := 39%N.
Definition double_quote : N := 34%N.

(** One character of [repr(s)] between the quotes [quote]: the quote and the
    backslash are escaped, tab, line feed and carriage return are written
    [\t], [\n] and [\r], and the other characters that are not printable
    as [\xhh], [\uhhhh] or [\Uhhhhhhhh]. *)
Definition repr_char (rt : runtime) (quote c : N) : str :=
  if ((c =? quote) || (c =? backslash))%N then [backslash; c]
  else if (c =? 9)%N then [backslash; 116%N]
  else if (c =? 10)%N then [backslash; 110%N]
  else if (c =? 13)%N then [backslash; 114%N]
  else if ((c <? 32) || (c =? 127))%N then [backslash; 120%N] ++ hex_fixed 2 c
  else if (c <? 127)%N then [c]
  else if isprintable rt c then [c]
  else if (c <=? 255)%N then [backslash; 120%N] ++ hex_fixed 2 c
  else if (c <=? 65535)%N then [backslash; 117%N] ++ hex_fixed 4 c
  else [backslash; 85%N] ++ hex_fixed 8 c.

(** [repr(s)] of a string: between single quotes, unless the string holds a
    single quote and no double quote. *)
Definition py_repr (rt : runtime) (s : str) : str :=
  let has_single := existsb (N.eqb single_quote) s in
  let has_double := existsb (N.eqb double_quote) s in
  let quote := if has_single && negb has_double then double_quote else single_quote in
  [quote] ++ flat_map (repr_char rt quote) s ++ [quote].

(** [str(e)], the text an f-string prints for [{e}].  A [KeyError] prints the
    repr of its key. *)
Definition exn_str (rt : runtime) (e : exn) : str :=
  match e with
  | JSONDecodeError msg => msg
  | KeyError key => py_repr rt key
  | TypeError msg => msg
  | AttributeError msg => msg
  | UnboundLocalError name =>
      u "cannot access local variable '" ++ name
        ++ u "' where it is not associated with a value"
  | LibraryError msg => msg
  | RerunException => []
  end.

(** ** Streamlit: what a run displays, and the session state *)

(** The events of a run, in order: the texts it displays with [st.warning],
    [st.error], [st.success], [st.info], [st.markdown] and [st.subheader],
    the boxes of the form with the value they are drawn with, and the calls
    of the model. *)

Inductive event :=
| st_warning (body : str)
| st_error (body : str)
| st_success (body : str)
| st_info (body : str)
| st_markdown (body : str)
| st_subheader (body : json)
| st_checkbox (label : str) (key : str) (value : bool)
| gemini_call (prompt : str) (temperature : float).

Record session_state := {
  course_lines : list str;
  current_qcm : option (gmap str json);
  show_correction : bool;
  user_selection : list str;
}.

(** Lines 85-92: the state of a new session. *)
Definition initial_state : session_state :=
  {| course_lines := []; current_qcm := None; show_correction := false;
     user_selection := [] |}.

(** What the widgets return during one run of the script, and the number
    [random.randint] draws. *)
Record inputs := {
  api_key : str;
  course_text_input : str;
  (** [uploaded_file.read().decode("utf-8")] when a file is uploaded *)
  uploaded_file : option (result str);
  analyse_button : bool;
  generate_button : bool;
  (** [st.checkbox(label, key=k, value=v)] from the widget key and [v] *)
  checkbox : str -> bool -> bool;
  form_submit_button : bool;
  randint : Z -> Z -> Z;
}.

(** ** The monad of a script run: session state, displayed events, exceptions *)

Definition M (A : Type) : Type := session_state -> result A * session_state * list event.

Definition ret {A} (a : A) : M A := fun s => (inr a, s, []).

Definition raise {A} (e : exn) : M A := fun s => (inl e, s, []).

Definition bind {A B} (m : M A) (k : A -> M B) : M B :=
  fun s =>
    match m s with
    | (inl e, s1, t1) => (inl e, s1, t1)
    | (inr a, s1, t1) =>
        match k a s1 with
        | (r, s2, t2) => (r, s2, t1 ++ t2)
        end
    end.

Notation "'let*' x ':=' m 'in' k" := (bind m (fun x => k))
  (at level 10, x name, m at level 200, k at level 200).
Notation "m ;; k" := (bind m (fun _ => k))
  (at level 100, k at level 200, right associativity).

Definition lift {A} (r : result A) : M A :=
  match r with inl e => raise e | inr a => ret a end.

Definition emit (ev : event) : M unit := fun s => (inr tt, s, [ev]).

Definition get : M session_state := fun s => (inr s, s, []).

Definition set_course_lines (v : list str) : M unit :=
  fun s => (inr tt, {| course_lines := v; current_qcm := current_qcm s;
                       show_correction := show_correction s;
                       user_selection := user_selection s |}, []).

Definition set_current_qcm (v : option (gmap str json)) : M unit :=
  fun s => (inr tt, {| course_lines := course_lines s; current_qcm := v;
                       show_correction := show_correction s;
                       user_selection := user_selection s |}, []).

Definition set_show_correction (v : bool) : M unit :=
  fun s => (inr tt, {| course_lines := course_lines s; current_qcm := current_qcm s;
                       show_correction := v;
                       user_selection := user_selection s |}, []).

Definition set_user_selection (v : list str) : M unit :=
  fun s => (inr tt, {| course_lines := course_lines s; current_qcm := current_qcm s;
                       show_correction := show_correction s;
                       user_selection := v |}, []).

(** The three components of a finished run. *)
Definition outcome {A} (r : result A * session_state * list event) : result A := r.1.1.
Definition final_state {A} (r : result A * session_state * list event) : session_state :=
  r.1.2.
Definition trace {A} (r : result A * session_state * list event) : list event := r.2.

(** [for x in l: body(x)] *)
Fixpoint for_each {A} (l : list A) (body : A -> M unit) : M unit :=
  match l with
  | [] => ret tt
  | x :: l' => body x ;; for_each l' body
  end.

(** ** The script *)

(** Lines 22-57: the f-string of the prompt around [{fragment}]. *)
Definition prompt_before_fragment : str :=
  u "
    En te basant sur le fragment de texte suivant, crée un Questionnaire à Choix Multiples (QCM) complexe et pertinent.

    Fragment de texte :
    ---
    ".

Definition prompt_after_fragment : str :=
  u "
    ---

    Instructions pour le QCM :
    1.  Le QCM doit comporter 5 options de réponse (A, B, C, D, E).
    2.  Il doit y avoir UNE ou PLUSIEURS bonnes réponses.
    3.  La question doit porter sur un concept clé du texte.
    4.  Pour CHAQUE option (A, B, C, D, E), fournis une explication concise justifiant pourquoi elle est correcte ou incorrecte.

    Format de sortie OBLIGATOIRE (JSON strict) :
    Assure-toi que la réponse est *uniquement* le JSON valide, sans aucun texte supplémentaire, préambule ou postambule, ni bloc de code Markdown (comme ```json ... ```).

    {
      " ++ dquote ++ u "question" ++ dquote ++ u ": " ++ dquote ++ u "Le texte de la question..." ++ dquote ++ u ",
      " ++ dquote ++ u "options" ++ dquote ++ u ": {
        " ++ dquote ++ u "A" ++ dquote ++ u ": " ++ dquote ++ u "Texte de l'option A" ++ dquote ++ u ",
        " ++ dquote ++ u "B" ++ dquote ++ u ": " ++ dquote ++ u "Texte de l'option B" ++ dquote ++ u ",
        " ++ dquote ++ u "C" ++ dquote ++ u ": " ++ dquote ++ u "Texte de l'option C" ++ dquote ++ u ",
        " ++ dquote ++ u "D" ++ dquote ++ u ": " ++ dquote ++ u "Texte de l'option D" ++ dquote ++ u ",
        " ++ dquote ++ u "E" ++ dquote ++ u ": " ++ dquote ++ u "Texte de l'option E" ++ dquote ++ u "
      },
      " ++ dquote ++ u "correct_answers" ++ dquote ++ u ": [" ++ dquote ++ u "A" ++ dquote ++ u ", " ++ dquote ++ u "C" ++ dquote ++ u "], // Liste des clés des bonnes réponses
      " ++ dquote ++ u "explanations" ++ dquote ++ u ": {
        " ++ dquote ++ u "A" ++ dquote ++ u ": " ++ dquote ++ u "Explication pour A..." ++ dquote ++ u ",
        " ++ dquote ++ u "B" ++ dquote ++ u ": " ++ dquote ++ u "Explication pour B..." ++ dquote ++ u ",
        " ++ dquote ++ u "C" ++ dquote ++ u ": " ++ dquote ++ u "Explication pour C..." ++ dquote ++ u ",
        " ++ dquote ++ u "D" ++ dquote ++ u ": " ++ dquote ++ u "Explication pour D..." ++ dquote ++ u ",
        " ++ dquote ++ u "E" ++ dquote ++ u ": " ++ dquote ++ u "Explication pour E..." ++ dquote ++ u "
      }
    }
    ".

Definition build_prompt (fragment : str) : str :=
  prompt_before_fragment ++ fragment ++ prompt_after_fragment.

#[warnings="-inexact-float"]
Definition temperature : float := 0.6%float.

Definition fence_json : str := u "```json".
Definition fence : str := u "```".

(** Lines 67-71: the text handed to [json.loads]. *)
Definition strip_code_fence (response_text : str) : str :=
  let qcm_json_string := strip response_text in
  let qcm_json_string :=
    if startswith qcm_json_string fence_json
    then strip (slice_from (length fence_json) qcm_json_string)
    else qcm_json_string in
  if endswith qcm_json_string fence
  then strip (slice_to_minus (length fence) qcm_json_string)
  else qcm_json_string.

(** Line 98 *)
Definition introduction : str :=
  u "Chargez un cours au format `.txt` pour générer des QCM interactifs.".

(** Line 107 *)
Definition or_separator : str :=
  u "<p style='text-align: center; color: grey;'>OU</p>".

Definition k_fragment_source : str := u "fragment_source".
Definition k_question : str := u "question".
Definition k_options : str := u "options".
Definition k_correct_answers : str := u "correct_answers".
Definition k_explanations : str := u "explanations".

Definition json_error_message (rt : runtime) (response_text : str) (e : exn) : str :=
  u "Erreur de décodage JSON de la réponse de Gemini. Réponse brute : '"
    ++ response_text ++ u "' Erreur: " ++ exn_str rt e.

Definition generation_error_message (rt : runtime) (e : exn) : str :=
  u "Erreur lors de la génération du QCM avec l'API Google Gemini : " ++ exn_str rt e.

Section Script.
Context (rt : runtime).

(** An f-string field [{v}] *)
Definition format_value (v : json) : str :=
  match v with
  | JStr s => s
  | _ => str_of_value rt v
  end.

(** [sorted(v)] *)
Definition py_sorted (v : json) : result (list json) :=
  match v with
  | JArr l =>
      match strs_of l with
      | Some ss => inr (JStr <$> sorted_strs ss)
      | None => sorted_other rt l
      end
  | JStr s => inr (JStr <$> sorted_strs ((fun c => [c]) <$> s))
  | JObj d => inr (JStr <$> sorted_strs (map_to_list d).*1)
  | _ => inl (TypeError (u "'" ++ type_name v ++ u "' object is not iterable"))
  end.

(** Lines 67-76, the rest of the [try] body once [response] is bound. *)
Definition parse_response (fragment : str) (resp : response) : result (gmap str json) :=
  match text resp with
  | inl e => inl e
  | inr response_text =>
      match json_loads rt (strip_code_fence response_text) with
      | inl e => inl e
      | inr qcm_data => setitem qcm_data k_fragment_source (JStr fragment)
      end
  end.

(** Lines 77-82, the [except] clauses.  [resp] is [None] when the exception
    was raised before [response] was assigned. *)
Definition handle_generation_error (resp : option response) (e : exn)
  : M (option (gmap str json)) :=
  if is_JSONDecodeError e then
    match resp with
    | None => raise (UnboundLocalError (u "response"))
    | Some r =>
        let* response_text := lift (text r) in
        emit (st_error (json_error_message rt response_text e));;
        ret None
    end
  else if is_Exception e then
    emit (st_error (generation_error_message rt e));;
    ret None
  else raise e.

(** Lines 17-82 *)
Definition generate_qcm_with_gemini (fragment : str) (gemini_model : model)
  : M (option (gmap str json)) :=
  let prompt := build_prompt fragment in
  emit (gemini_call prompt temperature);;
  match generate_content gemini_model prompt temperature with
  | inl e => handle_generation_error None e
  | inr resp =>
      match parse_response fragment resp with
      | inl e => handle_generation_error (Some resp) e
      | inr qcm_data => ret (Some qcm_data)
      end
  end.

(** Lines 111-115: the uploaded file wins over the pasted text. *)
Definition read_course_text (inp : inputs) : M str :=
  match uploaded_file inp with
  | Some decoded => lift decoded
  | None =>
      if str_truthy (course_text_input inp) then ret (course_text_input inp)
      else ret []
  end.

(** Lines 117-130 *)
Definition load_course (course_text : str) : M unit :=
  if negb (str_truthy (strip course_text)) then
    emit (st_warning (u "Veuillez fournir du texte pour l'analyse."));;
    set_course_lines []
  else
    let all_lines := splitlines course_text in
    set_course_lines (List.filter (fun line => str_truthy (strip line)) all_lines);;
    let* s := get in
    match course_lines s with
    | [] => emit (st_error (u "Aucune ligne de texte non-vide n'a été trouvée."))
    | _ :: _ =>
        emit (st_success (decimal (length (course_lines s))
                            ++ u " lignes de cours prêtes à être utilisées !"));;
        set_current_qcm None;;
        set_show_correction false
    end.

(** Lines 110-130: the button "Analyser le cours" *)
Definition sidebar (inp : inputs) : M unit :=
  if analyse_button inp then
    let* course_text := read_course_text inp in
    load_course course_text
  else ret tt.

(** Lines 133-141 *)
Definition configure_model (inp : inputs) : M (option model) :=
  if str_truthy (api_key inp) then
    match GenerativeModel rt (api_key inp) (u "gemini-2.5-flash") with
    | inr gemini_model => ret (Some gemini_model)
    | inl e =>
        if is_Exception e then
          emit (st_error (u "Erreur de configuration de l'API Google Gemini : "
                            ++ exn_str rt e ++ u ". Vérifiez votre clé API."));;
          ret None
        else raise e
    end
  else ret None.

Definition chunk_size : Z := 100.

(** Lines 161-165 *)
Definition choose_start_index (num_lines : Z) (randint : Z -> Z -> Z) : Z :=
  if num_lines <=? chunk_size then 0
  else
    let max_start_index := num_lines - chunk_size in
    randint 0 max_start_index.

(** Line 167 *)
Definition select_lines (lines : list str) (start_index : Z) : list str :=
  py_slice lines start_index (start_index + chunk_size).

(** Lines 153-168: the fragment sent to the model, for a non-empty pool. *)
Definition select_fragment (lines : list str) (randint : Z -> Z -> Z) : str :=
  let num_lines := Z.of_nat (length lines) in
  let start_index := choose_start_index num_lines randint in
  let selected_lines := select_lines lines start_index in
  join newline selected_lines.

(** Lines 153-172: choosing the fragment and asking for the question. *)
Definition produce_question (inp : inputs) (gemini_model : model) : M unit :=
  let* s := get in
  let lines := course_lines s in
  let num_lines := Z.of_nat (length lines) in
  if num_lines =? 0 then
    emit (st_warning (u "Aucune ligne de cours à utiliser. Veuillez analyser un cours d'abord."));;
    set_current_qcm None
  else
    let selected_fragment := select_fragment lines (randint inp) in
    let* qcm := generate_qcm_with_gemini selected_fragment gemini_model in
    set_current_qcm qcm.

(** Lines 149-172: the button "Générer un nouveau QCM" *)
Definition request_new_question (inp : inputs) (gemini_model : model) : M unit :=
  set_show_correction false;;
  set_user_selection [];;
  produce_question inp gemini_model.

Definition list_truthy {A} (l : list A) : bool :=
  match l with [] => false | _ => true end.

(** Lines 144-175 *)
Definition main_logic (inp : inputs) (gemini_model : option model) : M unit :=
  let* s := get in
  match gemini_model with
  | Some m =>
      if list_truthy (course_lines s) then
        if generate_button inp then request_new_question inp m else ret tt
      else ret tt
  | None =>
      if list_truthy (course_lines s) && negb (str_truthy (api_key inp)) then
        emit (st_warning (u "Veuillez saisir votre clé API Google Gemini pour générer les QCM."))
      else ret tt
  end.

(** Truth value of [st.session_state.current_qcm]: a non-empty dict. *)
Definition qcm_truthy (qcm : option (gmap str json)) : option (gmap str json) :=
  match qcm with
  | Some d => match size d with O => None | S _ => Some d end
  | None => None
  end.

(** Lines 190-195: the checkboxes of the form, one per option. *)
Fixpoint form_checkboxes (inp : inputs) (options : json) (keys : list str)
    (user_choices : list str) : M (list str) :=
  match keys with
  | [] => ret user_choices
  | key :: keys' =>
      let* value := lift (subscript options key) in
      let* s := get in
      let checked :=
        if show_correction s then bool_decide (key ∈ user_selection s) else false in
      emit (st_checkbox (u "**" ++ key ++ u ":** " ++ format_value value)
                        (u "cb_" ++ key) checked);;
      if checkbox inp (u "cb_" ++ key) checked
      then form_checkboxes inp options keys' (user_choices ++ [key])
      else form_checkboxes inp options keys' user_choices
  end.

(** Lines 178-200 *)
Definition display_qcm (inp : inputs) : M unit :=
  let* s := get in
  match qcm_truthy (current_qcm s) with
  | None => ret tt
  | Some qcm =>
      emit (st_markdown (u "---"));;
      let* fragment_source := lift (dict_getitem qcm k_fragment_source) in
      emit (st_info (u "*" ++ format_value fragment_source ++ u "*"));;
      let* question := lift (dict_getitem qcm k_question) in
      emit (st_subheader question);;
      let* options := lift (dict_getitem qcm k_options) in
      let* keys := lift (py_keys options) in
      let sorted_keys := sorted_strs keys in
      let* user_choices := form_checkboxes inp options sorted_keys [] in
      if form_submit_button inp then
        set_user_selection (sorted_strs user_choices);;
        set_show_correction true;;
        raise RerunException
      else ret tt
  end.

(** The four outcomes of lines 231-250. *)
Inductive verdict :=
| CorrectChosen
| CorrectMissed
| IncorrectChosen
| IncorrectAvoided.

(** Lines 231-250: the [if]/[elif] chain; [None] stands for the case where
    no branch is taken and the three strings stay empty. *)
Definition classify (is_correct_option user_selected_option : bool) : option verdict :=
  if is_correct_option && user_selected_option then Some CorrectChosen
  else if is_correct_option && negb user_selected_option then Some CorrectMissed
  else if negb is_correct_option && user_selected_option then Some IncorrectChosen
  else if negb is_correct_option && negb user_selected_option then Some IncorrectAvoided
  else None.

Definition green : str := u "rgba(40, 167, 69, 0.2)".
Definition red : str := u "rgba(220, 53, 69, 0.2)".

Definition color (v : option verdict) : str :=
  match v with
  | Some CorrectChosen => green
  | Some CorrectMissed => red
  | Some IncorrectChosen => red
  | Some IncorrectAvoided => green
  | None => []
  end.

Definition icon (v : option verdict) : str :=
  match v with
  | Some CorrectChosen => u "✅"
  | Some CorrectMissed => u "❌"
  | Some IncorrectChosen => u "❌"
  | Some IncorrectAvoided => u "✅"
  | None => []
  end.

Definition status_text (v : option verdict) : str :=
  match v with
  | Some CorrectChosen => u "Correcte (Votre choix)"
  | Some CorrectMissed => u "Correcte (Manquée)"
  | Some IncorrectChosen => u "Incorrecte (Votre choix)"
  | Some IncorrectAvoided => u "Incorrecte (Non sélectionnée)"
  | None => []
  end.

Definition placeholder : str := u "Pas d'explication fournie.".

(** Lines 252-254 *)
Definition correction_html (v : option verdict) (key : str) (value explanation : json)
  : str :=
  u "<div style='background-color: " ++ color v
    ++ u "; padding: 10px; border-radius: 5px; margin-bottom: 10px;'>"
    ++ icon v ++ u " **Option " ++ key ++ u " (" ++ status_text v ++ u ")**: "
    ++ format_value value ++ u "<br>"
    ++ u "**Explication :** " ++ format_value explanation ++ u "</div>".

(** Lines 223-250: the verdict of one option key. *)
Definition grade_option (correct_answers : list json) (user_answers : list str)
    (key : str) : option verdict :=
  let is_correct_option := py_in key correct_answers in
  let user_selected_option := bool_decide (key ∈ user_answers) in
  classify is_correct_option user_selected_option.

(** Lines 219-254: the body of the loop over the option keys. *)
Definition correction_block (qcm : gmap str json) (correct_answers : list json)
    (user_answers : list str) (key : str) : M unit :=
  let* options := lift (dict_getitem qcm k_options) in
  let* value := lift (subscript options key) in
  let* explanations := lift (dict_getitem qcm k_explanations) in
  let* explanation := lift (py_get explanations key (JStr placeholder)) in
  emit (st_markdown
          (correction_html (grade_option correct_answers user_answers key)
             key value explanation)).

(** Line 212: [user_answers == correct_answers] *)
Definition is_fully_correct (user_answers : list str) (correct_answers : list json)
  : bool :=
  list_eq user_answers correct_answers.

(** Lines 203-254 *)
Definition display_correction : M unit :=
  let* s := get in
  if show_correction s then
    match qcm_truthy (current_qcm s) with
    | None => ret tt
    | Some qcm =>
        let user_answers := user_selection s in
        let* raw_correct_answers := lift (dict_getitem qcm k_correct_answers) in
        let* correct_answers := lift (py_sorted raw_correct_answers) in
        emit (st_markdown (u "---"));;
        emit (st_subheader (JStr (u "Correction détaillée")));;
        (if is_fully_correct user_answers correct_answers
         then emit (st_success (u "🎉 Bravo ! C'est la bonne réponse."))
         else emit (st_error
                (u "🤔 Votre réponse est incorrecte ou incomplète. Voici le détail :")));;
        let* options := lift (dict_getitem qcm k_options) in
        let* keys := lift (py_keys options) in
        for_each (sorted_strs keys) (correction_block qcm correct_answers user_answers)
    end
  else ret tt.

(** One run of the script, top to bottom: the introduction of line 98, the
    separator of line 107 between the two ways of giving the course, then the
    buttons and the displays.  A run that ends on [RerunException] is
    followed by a new run from the state it leaves. *)
Definition script (inp : inputs) : M unit :=
  emit (st_markdown introduction);;
  emit (st_markdown or_separator);;
  sidebar inp;;
  let* gemini_model := configure_model inp in
  main_logic inp gemini_model;;
  display_qcm inp;;
  display_correction.

End Script.

(** ** Notions used in the statements *)

(** [m] leaves the session state as it found it. *)
Definition reads_only {A} (m : M A) : Prop := ∀ s, final_state (m s) = s.

(** [hoare P m Q]: from a state in [P], the run [m] ends with an outcome and
    a state in [Q], whether it returns or raises. *)
Definition hoare {A} (P : session_state → Prop) (m : M A)
    (Q : result A → session_state → Prop) : Prop :=
  ∀ s, P s → Q (outcome (m s)) (final_state (m s)).

(** [keeps I m]: the run [m] preserves the property [I] of the state. *)
Definition keeps {A} (I : session_state → Prop) (m : M A) : Prop :=
  hoare I m (λ _ s, I s).

(** A line as [splitlines] and the filter of line 123 leave it: non-empty,
    without a line boundary. *)
Definition clean_line (line : str) : Prop :=
  line ≠ [] ∧ Forall (λ c, islinebreak c = false) line.

(** The invariant of the line pool. *)
Definition lines_clean (s : session_state) : Prop := Forall clean_line (course_lines s).

(** No answer is recorded: the selection is empty and the correction hidden. *)
Definition answers_reset (s : session_state) : Prop :=
  show_correction s = false ∧ user_selection s = [].

Definition correction_hidden (s : session_state) : Prop := show_correction s = false.

(** What a run may say about the correction flag at its end: it is raised
    only by a submission, which ends the run on [st.rerun()] with a current
    question in place. *)
Definition raised_by_submit (inp : inputs) (r : result unit) (s' : session_state) : Prop :=
  show_correction s' = true →
  form_submit_button inp = true ∧ r = inl RerunException
  ∧ is_Some (qcm_truthy (current_qcm s')).

(** The banner of lines 212-215. *)
Definition banner (matches : bool) : event :=
  if matches then st_success (u "🎉 Bravo ! C'est la bonne réponse.")
  else st_error (u "🤔 Votre réponse est incorrecte ou incomplète. Voici le détail :").

(** The block of lines 252-254 for the option [key] of a question with options
    [opts] and explanations [expl]. *)
Definition correction_event (rt : runtime) (opts expl : gmap str json)
    (correct_answers : list json) (user_answers : list str) (key : str) : event :=
  st_markdown
    (correction_html rt (grade_option correct_answers user_answers key) key
       (default JNull (opts !! key)) (default (JStr placeholder) (expl !! key))).

(** The option keys in display order. *)
Definition option_keys (opts : gmap str json) : list str :=
  sorted_strs (map_to_list opts).*1.

(** A decoded question with the fields the display reads: options and
    explanations are objects, the correct answers a list of strings. *)
Definition mcq_fields (qcm opts expl : gmap str json) (correct : list str) : Prop :=
  qcm !! k_options = Some (JObj opts)
  ∧ qcm !! k_correct_answers = Some (JArr (JStr <$> correct))
  ∧ qcm !! k_explanations = Some (JObj expl).

(** Whether the box of the option [key] comes back ticked (lines 193-194). *)
Definition ticked (inp : inputs) (s : session_state) (key : str) : bool :=
  checkbox inp (u "cb_" ++ key)
    (if show_correction s then bool_decide (key ∈ user_selection s) else false).

(** ** Notions used in the further properties *)

(** A call of the model among the events of a run. *)
Definition is_model_call (ev : event) : bool :=
  match ev with gemini_call _ _ => true | _ => false end.

(** How many times a run called the model. *)
Definition model_calls (t : list event) : nat := length (List.filter is_model_call t).

(** [emits P m]: every event of the run [m] satisfies [P]. *)
Definition emits {A} (P : event → Prop) (m : M A) : Prop :=
  ∀ s, Forall P (trace (m s)).

(** [preserves f m]: the run [m] leaves the component [f] of the session
    state as it found it, whether it returns or raises. *)
Definition preserves {A B} (f : session_state → B) (m : M A) : Prop :=
  ∀ s, f (final_state (m s)) = f s.

(** The lines line 123 keeps: those that are not blank. *)
Definition kept_lines (course_text : str) : list str :=
  List.filter (fun line => str_truthy (strip line)) (splitlines course_text).

(** A line of the pool: not blank, and free of line boundaries. *)
Definition pool_line (line : str) : Prop :=
  strip line ≠ [] ∧ Forall (λ c, islinebreak c = false) line.

(** The current question, when there is one, carries its fragment. *)
Definition question_tagged (s : session_state) : Prop :=
  ∀ qcm, current_qcm s = Some qcm →
         ∃ fragment, qcm !! k_fragment_source = Some (JStr fragment).

(** The correction is shown only for a question. *)
Definition correction_has_question (s : session_state) : Prop :=
  show_correction s = true → is_Some (qcm_truthy (current_qcm s)).

(** The recorded selection is sorted and repeats no key. *)
Definition selection_sorted (s : session_state) : Prop :=
  Sorted str_le (user_selection s) ∧ NoDup (user_selection s).

(** The state a submission of the choices [user_choices] leaves (lines
    198-199). *)
Definition submitted (s : session_state) (user_choices : list str) : session_state :=
  {| course_lines := course_lines s; current_qcm := current_qcm s;
     show_correction := true; user_selection := sorted_strs user_choices |}.

(** The recorded selection only names options of the current question. *)
Definition selection_within_options (s : session_state) : Prop :=
  ∀ qcm opts, current_qcm s = Some qcm → qcm !! k_options = Some (JObj opts) →
    ∀ key, key ∈ user_selection s → is_Some (opts !! key).

(** The three events that open the correction, with the banner for [matches],
    and the blocks of the options after them. *)
Definition correction_events (rt : runtime) (opts expl : gmap str json)
    (correct : list str) (user_answers : list str) (matches : bool) : list event :=
  [st_markdown (u "---"); st_subheader (JStr (u "Correction détaillée"));
   banner matches]
  ++ (correction_event rt opts expl (JStr <$> sorted_strs correct) user_answers
        <$> option_keys opts).

(** A printable ASCII character other than the single quote and the
    backslash: [repr] leaves it as it is. *)
Definition plain_char (c : N) : Prop :=
  (32 ≤ c < 127 ∧ c ≠ single_quote ∧ c ≠ backslash)%N.

(** An event that is not a call of the model. *)
Definition quiet_event (ev : event) : Prop := is_model_call ev = false.

(** The two messages of lines 126 and 158. *)
Definition no_line_found : event :=
  st_error (u "Aucune ligne de texte non-vide n'a été trouvée.").
Definition no_line_to_use : event :=
  st_warning (u "Aucune ligne de cours à utiliser. Veuillez analyser un cours d'abord.").

(** An event other than these two messages. *)
Definition live_event (ev : event) : Prop := ev ≠ no_line_found ∧ ev ≠ no_line_to_use.

(** ** Sample data *)

Module Samples.

(** A decoder that knows three texts and rejects the rest. *)
Definition sample_json_loads (s : str) : result json :=
  if bool_decide (s = u "{}") then inr (JObj ∅)
  else if bool_decide (s = u "[]") then inr (JArr [])
  else if bool_decide (s = u "7") then inr (JInt 7)
  else inl (JSONDecodeError (u "Expecting value: line 1 column 1 (char 0)")).

Definition sample_str_of_value (v : json) : str :=
  match v with
  | JNull => u "None"
  | JBool true => u "True"
  | JBool false => u "False"
  | _ => u "<" ++ type_name v ++ u ">"
  end.

Definition sample_sorted_other (l : list json) : result (list json) :=
  match l with
  | [] | [_] => inr l
  | _ => inl (TypeError (u "'<' not supported between instances"))
  end.

(** The code points above 127 that are not printable in Unicode 14.0.0, the
    data of CPython 3.11, as ranges with both ends included: the categories
    Cc, Cf, Cs, Co, Cn, Zl, Zp and Zs. *)
Definition not_printable : list (N * N) :=
  [(128, 160); (173, 173); (888, 889); (896, 899); (907, 907); (909, 909); (930, 930);
   (1328, 1328); (1367, 1368); (1419, 1420); (1424, 1424); (1480, 1487); (1515, 1518);
   (1525, 1541); (1564, 1564); (1757, 1757); (1806, 1807); (1867, 1868); (1970, 1983);
   (2043, 2044); (2094, 2095); (2111, 2111); (2140, 2141); (2143, 2143); (2155, 2159);
   (2191, 2199); (2274, 2274); (2436, 2436); (2445, 2446); (2449, 2450); (2473, 2473);
   (2481, 2481); (2483, 2485); (2490, 2491); (2501, 2502); (2505, 2506); (2511, 2518);
   (2520, 2523); (2526, 2526); (2532, 2533); (2559, 2560); (2564, 2564); (2571, 2574);
   (2577, 2578); (2601, 2601); (2609, 2609); (2612, 2612); (2615, 2615); (2618, 2619);
   (2621, 2621); (2627, 2630); (2633, 2634); (2638, 2640); (2642, 2648); (2653, 2653);
   (2655, 2661); (2679, 2688); (2692, 2692); (2702, 2702); (2706, 2706); (2729, 2729);
   (2737, 2737); (2740, 2740); (2746, 2747); (2758, 2758); (2762, 2762); (2766, 2767);
   (2769, 2783); (2788, 2789); (2802, 2808); (2816, 2816); (2820, 2820); (2829, 2830);
   (2833, 2834); (2857, 2857); (2865, 2865); (2868, 2868); (2874, 2875); (2885, 2886);
   (2889, 2890); (2894, 2900); (2904, 2907); (2910, 2910); (2916, 2917); (2936, 2945);
   (2948, 2948); (2955, 2957); (2961, 2961); (2966, 2968); (2971, 2971); (2973, 2973);
   (2976, 2978); (2981, 2983); (2987, 2989); (3002, 3005); (3011, 3013); (3017, 3017);
   (3022, 3023); (3025, 3030); (3032, 3045); (3067, 3071); (3085, 3085); (3089, 3089);
   (3113, 3113); (3130, 3131); (3141, 3141); (3145, 3145); (3150, 3156); (3159, 3159);
   (3163, 3164); (3166, 3167); (3172, 3173); (3184, 3190); (3213, 3213); (3217, 3217);
   (3241, 3241); (3252, 3252); (3258, 3259); (3269, 3269); (3273, 3273); (3278, 3284);
   (3287, 3292); (3295, 3295); (3300, 3301); (3312, 3312); (3315, 3327); (3341, 3341);
   (3345, 3345); (3397, 3397); (3401, 3401); (3408, 3411); (3428, 3429); (3456, 3456);
   (3460, 3460); (3479, 3481); (3506, 3506); (3516, 3516); (3518, 3519); (3527, 3529);
   (3531, 3534); (3541, 3541); (3543, 3543); (3552, 3557); (3568, 3569); (3573, 3584);
   (3643, 3646); (3676, 3712); (3715, 3715); (3717, 3717); (3723, 3723); (3748, 3748);
   (3750, 3750); (3774, 3775); (3781, 3781); (3783, 3783); (3790, 3791); (3802, 3803);
   (3808, 3839); (3912, 3912); (3949, 3952); (3992, 3992); (4029, 4029); (4045, 4045);
   (4059, 4095); (4294, 4294); (4296, 4300); (4302, 4303); (4681, 4681); (4686, 4687);
   (4695, 4695); (4697, 4697); (4702, 4703); (4745, 4745); (4750, 4751); (4785, 4785);
   (4790, 4791); (4799, 4799); (4801, 4801); (4806, 4807); (4823, 4823); (4881, 4881);
   (4886, 4887); (4955, 4956); (4989, 4991); (5018, 5023); (5110, 5111); (5118, 5119);
   (5760, 5760); (5789, 5791); (5881, 5887); (5910, 5918); (5943, 5951); (5972, 5983);
   (5997, 5997); (6001, 6001); (6004, 6015); (6110, 6111); (6122, 6127); (6138, 6143);
   (6158, 6158); (6170, 6175); (6265, 6271); (6315, 6319); (6390, 6399); (6431, 6431);
   (6444, 6447); (6460, 6463); (6465, 6467); (6510, 6511); (6517, 6527); (6572, 6575);
   (6602, 6607); (6619, 6621); (6684, 6685); (6751, 6751); (6781, 6782); (6794, 6799);
   (6810, 6815); (6830, 6831); (6863, 6911); (6989, 6991); (7039, 7039); (7156, 7163);
   (7224, 7226); (7242, 7244); (7305, 7311); (7355, 7356); (7368, 7375); (7419, 7423);
   (7958, 7959); (7966, 7967); (8006, 8007); (8014, 8015); (8024, 8024); (8026, 8026);
   (8028, 8028); (8030, 8030); (8062, 8063); (8117, 8117); (8133, 8133); (8148, 8149);
   (8156, 8156); (8176, 8177); (8181, 8181); (8191, 8207); (8232, 8239); (8287, 8303);
   (8306, 8307); (8335, 8335); (8349, 8351); (8385, 8399); (8433, 8447); (8588, 8591);
   (9255, 9279); (9291, 9311); (11124, 11125); (11158, 11158); (11508, 11512);
   (11558, 11558); (11560, 11564); (11566, 11567); (11624, 11630); (11633, 11646);
   (11671, 11679); (11687, 11687); (11695, 11695); (11703, 11703); (11711, 11711);
   (11719, 11719); (11727, 11727); (11735, 11735); (11743, 11743); (11870, 11903);
   (11930, 11930); (12020, 12031); (12246, 12271); (12284, 12288); (12352, 12352);
   (12439, 12440); (12544, 12548); (12592, 12592); (12687, 12687); (12772, 12783);
   (12831, 12831); (42125, 42127); (42183, 42191); (42540, 42559); (42744, 42751);
   (42955, 42959); (42962, 42962); (42964, 42964); (42970, 42993); (43053, 43055);
   (43066, 43071); (43128, 43135); (43206, 43213); (43226, 43231); (43348, 43358);
   (43389, 43391); (43470, 43470); (43482, 43485); (43519, 43519); (43575, 43583);
   (43598, 43599); (43610, 43611); (43715, 43738); (43767, 43776); (43783, 43784);
   (43791, 43792); (43799, 43807); (43815, 43815); (43823, 43823); (43884, 43887);
   (44014, 44015); (44026, 44031); (55204, 55215); (55239, 55242); (55292, 63743);
   (64110, 64111); (64218, 64255); (64263, 64274); (64280, 64284); (64311, 64311);
   (64317, 64317); (64319, 64319); (64322, 64322); (64325, 64325); (64451, 64466);
   (64912, 64913); (64968, 64974); (64976, 65007); (65050, 65055); (65107, 65107);
   (65127, 65127); (65132, 65135); (65141, 65141); (65277, 65280); (65471, 65473);
   (65480, 65481); (65488, 65489); (65496, 65497); (65501, 65503); (65511, 65511);
   (65519, 65531); (65534, 65535); (65548, 65548); (65575, 65575); (65595, 65595);
   (65598, 65598); (65614, 65615); (65630, 65663); (65787, 65791); (65795, 65798);
   (65844, 65846); (65935, 65935); (65949, 65951); (65953, 65999); (66046, 66175);
   (66205, 66207); (66257, 66271); (66300, 66303); (66340, 66348); (66379, 66383);
   (66427, 66431); (66462, 66462); (66500, 66503); (66518, 66559); (66718, 66719);
   (66730, 66735); (66772, 66775); (66812, 66815); (66856, 66863); (66916, 66926);
   (66939, 66939); (66955, 66955); (66963, 66963); (66966, 66966); (66978, 66978);
   (66994, 66994); (67002, 67002); (67005, 67071); (67383, 67391); (67414, 67423);
   (67432, 67455); (67462, 67462); (67505, 67505); (67515, 67583); (67590, 67591);
   (67593, 67593); (67638, 67638); (67641, 67643); (67645, 67646); (67670, 67670);
   (67743, 67750); (67760, 67807); (67827, 67827); (67830, 67834); (67868, 67870);
   (67898, 67902); (67904, 67967); (68024, 68027); (68048, 68049); (68100, 68100);
   (68103, 68107); (68116, 68116); (68120, 68120); (68150, 68151); (68155, 68158);
   (68169, 68175); (68185, 68191); (68256, 68287); (68327, 68330); (68343, 68351);
   (68406, 68408); (68438, 68439); (68467, 68471); (68498, 68504); (68509, 68520);
   (68528, 68607); (68681, 68735); (68787, 68799); (68851, 68857); (68904, 68911);
   (68922, 69215); (69247, 69247); (69290, 69290); (69294, 69295); (69298, 69375);
   (69416, 69423); (69466, 69487); (69514, 69551); (69580, 69599); (69623, 69631);
   (69710, 69713); (69750, 69758); (69821, 69821); (69827, 69839); (69865, 69871);
   (69882, 69887); (69941, 69941); (69960, 69967); (70007, 70015); (70112, 70112);
   (70133, 70143); (70162, 70162); (70207, 70271); (70279, 70279); (70281, 70281);
   (70286, 70286); (70302, 70302); (70314, 70319); (70379, 70383); (70394, 70399);
   (70404, 70404); (70413, 70414); (70417, 70418); (70441, 70441); (70449, 70449);
   (70452, 70452); (70458, 70458); (70469, 70470); (70473, 70474); (70478, 70479);
   (70481, 70486); (70488, 70492); (70500, 70501); (70509, 70511); (70517, 70655);
   (70748, 70748); (70754, 70783); (70856, 70863); (70874, 71039); (71094, 71095);
   (71134, 71167); (71237, 71247); (71258, 71263); (71277, 71295); (71354, 71359);
   (71370, 71423); (71451, 71452); (71468, 71471); (71495, 71679); (71740, 71839);
   (71923, 71934); (71943, 71944); (71946, 71947); (71956, 71956); (71959, 71959);
   (71990, 71990); (71993, 71994); (72007, 72015); (72026, 72095); (72104, 72105);
   (72152, 72153); (72165, 72191); (72264, 72271); (72355, 72367); (72441, 72703);
   (72713, 72713); (72759, 72759); (72774, 72783); (72813, 72815); (72848, 72849);
   (72872, 72872); (72887, 72959); (72967, 72967); (72970, 72970); (73015, 73017);
   (73019, 73019); (73022, 73022); (73032, 73039); (73050, 73055); (73062, 73062);
   (73065, 73065); (73103, 73103); (73106, 73106); (73113, 73119); (73130, 73439);
   (73465, 73647); (73649, 73663); (73714, 73726); (74650, 74751); (74863, 74863);
   (74869, 74879); (75076, 77711); (77811, 77823); (78895, 82943); (83527, 92159);
   (92729, 92735); (92767, 92767); (92778, 92781); (92863, 92863); (92874, 92879);
   (92910, 92911); (92918, 92927); (92998, 93007); (93018, 93018); (93026, 93026);
   (93048, 93052); (93072, 93759); (93851, 93951); (94027, 94030); (94088, 94094);
   (94112, 94175); (94181, 94191); (94194, 94207); (100344, 100351); (101590, 101631);
   (101641, 110575); (110580, 110580); (110588, 110588); (110591, 110591); (110883, 110927);
   (110931, 110947); (110952, 110959); (111356, 113663); (113771, 113775); (113789, 113791);
   (113801, 113807); (113818, 113819); (113824, 118527); (118574, 118575); (118599, 118607);
   (118724, 118783); (119030, 119039); (119079, 119080); (119155, 119162); (119275, 119295);
   (119366, 119519); (119540, 119551); (119639, 119647); (119673, 119807); (119893, 119893);
   (119965, 119965); (119968, 119969); (119971, 119972); (119975, 119976); (119981, 119981);
   (119994, 119994); (119996, 119996); (120004, 120004); (120070, 120070); (120075, 120076);
   (120085, 120085); (120093, 120093); (120122, 120122); (120127, 120127); (120133, 120133);
   (120135, 120137); (120145, 120145); (120486, 120487); (120780, 120781); (121484, 121498);
   (121504, 121504); (121520, 122623); (122655, 122879); (122887, 122887); (122905, 122906);
   (122914, 122914); (122917, 122917); (122923, 123135); (123181, 123183); (123198, 123199);
   (123210, 123213); (123216, 123535); (123567, 123583); (123642, 123646); (123648, 124895);
   (124903, 124903); (124908, 124908); (124911, 124911); (124927, 124927); (125125, 125126);
   (125143, 125183); (125260, 125263); (125274, 125277); (125280, 126064); (126133, 126208);
   (126270, 126463); (126468, 126468); (126496, 126496); (126499, 126499); (126501, 126502);
   (126504, 126504); (126515, 126515); (126520, 126520); (126522, 126522); (126524, 126529);
   (126531, 126534); (126536, 126536); (126538, 126538); (126540, 126540); (126544, 126544);
   (126547, 126547); (126549, 126550); (126552, 126552); (126554, 126554); (126556, 126556);
   (126558, 126558); (126560, 126560); (126563, 126563); (126565, 126566); (126571, 126571);
   (126579, 126579); (126584, 126584); (126589, 126589); (126591, 126591); (126602, 126602);
   (126620, 126624); (126628, 126628); (126634, 126634); (126652, 126703); (126706, 126975);
   (127020, 127023); (127124, 127135); (127151, 127152); (127168, 127168); (127184, 127184);
   (127222, 127231); (127406, 127461); (127491, 127503); (127548, 127551); (127561, 127567);
   (127570, 127583); (127590, 127743); (128728, 128732); (128749, 128751); (128765, 128767);
   (128884, 128895); (128985, 128991); (129004, 129007); (129009, 129023); (129036, 129039);
   (129096, 129103); (129114, 129119); (129160, 129167); (129198, 129199); (129202, 129279);
   (129620, 129631); (129646, 129647); (129653, 129655); (129661, 129663); (129671, 129679);
   (129709, 129711); (129723, 129727); (129734, 129743); (129754, 129759); (129768, 129775);
   (129783, 129791); (129939, 129939); (129995, 130031); (130042, 131071); (173792, 173823);
   (177977, 177983); (178206, 178207); (183970, 183983); (191457, 194559); (195102, 196607);
   (201547, 917759); (918000, 1114111)]%N.

Definition sample_isprintable (c : N) : bool :=
  negb (existsb (fun r => (fst r <=? c)%N && (c <=? snd r)%N) not_printable).

(** A model that always answers [reply]. *)
Definition sample_model (reply : str) : model :=
  {| generate_content := fun _ _ => inr {| text := inr reply |} |}.

Definition sample_runtime : runtime :=
  {| json_loads := sample_json_loads;
     str_of_value := sample_str_of_value;
     sorted_other := sample_sorted_other;
     GenerativeModel := fun _ _ => inr (sample_model (u "{}"));
     isprintable := sample_isprintable |}.

(** A question with three options, two of them correct, and an
    explanation for the first option only. *)
Definition sample_options : gmap str json :=
  <[u "A" := JStr (u "un")]> (<[u "B" := JStr (u "deux")]> (<[u "C" := JStr (u "trois")]> ∅)).

Definition sample_explanations : gmap str json :=
  <[u "A" := JStr (u "parce que")]> ∅.

Definition sample_qcm : gmap str json :=
  <[k_fragment_source := JStr (u "ligne")]>
    (<[k_question := JStr (u "Combien ?")]>
       (<[k_options := JObj sample_options]>
          (<[k_correct_answers := JArr [JStr (u "C"); JStr (u "A")]]>
             (<[k_explanations := JObj sample_explanations]> ∅)))).

(** The same question without its [question] field. *)
Definition qcm_without_question : gmap str json := delete k_question sample_qcm.

Definition state_with_question : session_state :=
  {| course_lines := [u "ligne"]; current_qcm := Some sample_qcm;
     show_correction := true; user_selection := [u "A"] |}.

Definition state_without_question_field : session_state :=
  {| course_lines := [u "ligne"]; current_qcm := Some qcm_without_question;
     show_correction := false; user_selection := [] |}.

(** Nothing typed, nothing pressed, no box ticked. *)
Definition idle_inputs : inputs :=
  {| api_key := []; course_text_input := []; uploaded_file := None;
     analyse_button := false; generate_button := false;
     checkbox := fun _ _ => false; form_submit_button := false;
     randint := fun a _ => a |}.

(** The question is displayed, the correction not yet. *)
Definition state_before_submit : session_state :=
  {| course_lines := [u "ligne"]; current_qcm := Some sample_qcm;
     show_correction := false; user_selection := [] |}.

(** The boxes of C and A come back ticked and the form is submitted. *)
Definition submit_inputs : inputs :=
  {| api_key := []; course_text_input := []; uploaded_file := None;
     analyse_button := false; generate_button := false;
     checkbox := fun key _ => bool_decide (key = u "cb_A") || bool_decide (key = u "cb_C");
     form_submit_button := true;
     randint := fun a _ => a |}.

Definition fenced_reply : str := u "
```json
{}
```
".

(** A model whose call fails with [e]. *)
Definition failing_model (e : exn) : model :=
  {| generate_content := fun _ _ => inl e |}.

(** A key is typed and "Générer un nouveau QCM" is pressed. *)
Definition generate_inputs : inputs :=
  {| api_key := u "clef"; course_text_input := []; uploaded_file := None;
     analyse_button := false; generate_button := true;
     checkbox := fun _ _ => false; form_submit_button := false;
     randint := fun a _ => a |}.

(** The two correct options are recorded as the selection. *)
Definition state_answered : session_state :=
  {| course_lines := [u "ligne"]; current_qcm := Some sample_qcm;
     show_correction := true; user_selection := [u "A"; u "C"] |}.

(** A question whose correct answers name the option A twice. *)
Definition qcm_repeated_answer : gmap str json :=
  <[k_correct_answers := JArr [JStr (u "A"); JStr (u "A")]]> sample_qcm.

Definition state_repeated_answer : session_state :=
  {| course_lines := [u "ligne"]; current_qcm := Some qcm_repeated_answer;
     show_correction := true; user_selection := [u "A"] |}.

(** A file is uploaded next to a pasted text and "Analyser le cours" is
    pressed. *)
Definition upload_inputs : inputs :=
  {| api_key := []; course_text_input := u "autre";
     uploaded_file := Some (inr (u "un

 deux "));
     analyse_button := true; generate_button := false;
     checkbox := fun _ _ => false; form_submit_button := false;
     randint := fun a _ => a |}.

(** The question without its [correct_answers] field, once answered. *)
Definition qcm_without_answers : gmap str json := delete k_correct_answers sample_qcm.

Definition state_without_answers : session_state :=
  {| course_lines := [u "ligne"]; current_qcm := Some qcm_without_answers;
     show_correction := true; user_selection := [u "A"] |}.

End Samples.

(** * Properties *)

(** ** The order on strings and [sorted] *)

Lemma str_leb_refl a : str_leb a a = true.
Proof.
  induction a as [|x a IH]; simpl; [done|].
  rewrite N.ltb_irrefl, N.eqb_refl. exact IH.
Qed.

Lemma str_leb_total a b : str_leb a b = true ∨ str_leb b a = true.
Proof.
  revert b. induction a as [|x a IH]; intros [|y b]; simpl; auto.
  destruct (N.ltb_spec x y), (N.ltb_spec y x), (N.eqb_spec x y), (N.eqb_spec y x);
    auto; try lia.
Qed.

Lemma str_leb_trans a b c :
  str_leb a b = true → str_leb b c = true → str_leb a c = true.
Proof.
  revert b c. induction a as [|x a IH]; intros [|y b] [|z c]; simpl; auto; try done.
  destruct (N.ltb_spec x y), (N.ltb_spec y z), (N.ltb_spec x z),
    (N.eqb_spec x y), (N.eqb_spec y z), (N.eqb_spec x z);
    intros; try done; try lia; eauto.
Qed.

Lemma str_leb_antisym a b : str_leb a b = true → str_leb b a = true → a = b.
Proof.
  revert b. induction a as [|x a IH]; intros [|y b]; simpl; auto; try done.
  destruct (N.ltb_spec x y), (N.ltb_spec y x), (N.eqb_spec x y), (N.eqb_spec y x);
    intros; try done; try lia.
  f_equal; auto.
Qed.

Global Instance str_le_total : Total str_le.
Proof. intros a b. apply str_leb_total. Qed.

Global Instance str_le_trans : Transitive str_le.
Proof. intros a b c. apply str_leb_trans. Qed.

Global Instance str_le_antisym : AntiSymm (=) str_le.
Proof. intros a b. apply str_leb_antisym. Qed.

Lemma sorted_strs_perm l : sorted_strs l ≡ₚ l.
Proof. apply merge_sort_Permutation. Qed.

Lemma sorted_strs_sorted l : Sorted str_le (sorted_strs l).
Proof. apply (Sorted_merge_sort str_le). Qed.

(** Any sorted arrangement of [l] is [sorted_strs l]: the result of [sorted]
    does not depend on the algorithm. *)
Lemma sorted_strs_unique l l' : l' ≡ₚ l → Sorted str_le l' → l' = sorted_strs l.
Proof.
  intros Hp Hs. apply (Sorted_unique str_le); [done|apply sorted_strs_sorted|].
  by rewrite sorted_strs_perm.
Qed.

Lemma sorted_strs_eq_iff a b : sorted_strs a = sorted_strs b ↔ a ≡ₚ b.
Proof.
  split.
  - intros H. rewrite <- (sorted_strs_perm a), H. apply sorted_strs_perm.
  - intros H. apply sorted_strs_unique; [|apply sorted_strs_sorted].
    by rewrite sorted_strs_perm.
Qed.

Lemma elem_of_sorted_strs k l : k ∈ sorted_strs l ↔ k ∈ l.
Proof. by rewrite sorted_strs_perm. Qed.

Lemma NoDup_sorted_strs l : NoDup (sorted_strs l) ↔ NoDup l.
Proof. by rewrite sorted_strs_perm. Qed.

(** ** Lists of strings among decoded values *)

Lemma strs_of_fmap l : strs_of (JStr <$> l) = Some l.
Proof. induction l as [|x l IH]; csimpl; [done|]. by rewrite IH. Qed.

Lemma list_eq_fmap xs ys : list_eq xs (JStr <$> ys) = true ↔ xs = ys.
Proof.
  revert ys. induction xs as [|x xs IH]; intros [|y ys]; csimpl; try done.
  rewrite andb_true_iff, bool_decide_eq_true, IH.
  split; [by intros [-> ->]|by intros [= -> ->]].
Qed.

Lemma py_in_fmap k l : py_in k (JStr <$> l) = true ↔ k ∈ l.
Proof.
  unfold py_in. induction l as [|x l IH]; csimpl.
  - split; [done|]. by intros ?%elem_of_nil.
  - rewrite orb_true_iff, bool_decide_eq_true, IH, elem_of_cons. done.
Qed.

Section Decoded.
Context (rt : runtime).

Lemma py_sorted_strs l :
  py_sorted rt (JArr (JStr <$> l)) = inr (JStr <$> sorted_strs l).
Proof. cbv beta iota delta [py_sorted]. by rewrite strs_of_fmap. Qed.

(** The comparison of line 212 succeeds exactly on the permutations of the
    correct answers. *)
Lemma is_fully_correct_perm selection correct :
  is_fully_correct (sorted_strs selection) (JStr <$> sorted_strs correct) = true
  ↔ selection ≡ₚ correct.
Proof.
  unfold is_fully_correct. by rewrite list_eq_fmap, sorted_strs_eq_iff.
Qed.
End Decoded.

(** ** Reasoning about runs *)

Lemma bind_ret {A B} (a : A) (k : A → M B) s : bind (ret a) k s = k a s.
Proof. unfold bind, ret. by destruct (k a s) as [[? ?] ?]. Qed.

Lemma bind_lift_inr {A B} (a : A) (k : A → M B) s : bind (lift (inr a)) k s = k a s.
Proof. apply bind_ret. Qed.

Lemma bind_emit {B} ev (k : unit → M B) s :
  bind (emit ev) k s = (outcome (k tt s), final_state (k tt s), ev :: trace (k tt s)).
Proof. unfold bind, emit. by destruct (k tt s) as [[? ?] ?]. Qed.

Lemma outcome_bind_emit {B} ev (k : unit → M B) s :
  outcome (bind (emit ev) k s) = outcome (k tt s).
Proof. by rewrite bind_emit. Qed.

Lemma final_state_bind_emit {B} ev (k : unit → M B) s :
  final_state (bind (emit ev) k s) = final_state (k tt s).
Proof. by rewrite bind_emit. Qed.

Lemma trace_bind_emit {B} ev (k : unit → M B) s :
  trace (bind (emit ev) k s) = ev :: trace (k tt s).
Proof. by rewrite bind_emit. Qed.

Lemma bind_assoc {A B C} (m : M A) (k1 : A → M B) (k2 : B → M C) s :
  bind (bind m k1) k2 s = bind m (λ a, bind (k1 a) k2) s.
Proof.
  unfold bind. destruct (m s) as [[[e|a] s1] t1]; [done|].
  destruct (k1 a s1) as [[[e|b] s2] t2]; [done|].
  destruct (k2 b s2) as [[r s3] t3]. by rewrite app_assoc.
Qed.

Lemma bind_get {B} (k : session_state → M B) s : bind get k s = k s s.
Proof. unfold bind, get. by destruct (k s s) as [[? ?] ?]. Qed.

Lemma run_eta {A} (r : result A * session_state * list event) :
  r = (outcome r, final_state r, trace r).
Proof. by destruct r as [[? ?] ?]. Qed.

Lemma reads_only_ret {A} (a : A) : reads_only (ret a).
Proof. done. Qed.

Lemma reads_only_raise {A} e : reads_only (@raise A e).
Proof. done. Qed.

Lemma reads_only_lift {A} (r : result A) : reads_only (lift r).
Proof. by destruct r. Qed.

Lemma reads_only_emit ev : reads_only (emit ev).
Proof. done. Qed.

Lemma reads_only_get : reads_only get.
Proof. done. Qed.

Lemma reads_only_bind {A B} (m : M A) (k : A → M B) :
  reads_only m → (∀ a, reads_only (k a)) → reads_only (bind m k).
Proof.
  intros Hm Hk s. unfold bind. specialize (Hm s). unfold final_state in *.
  destruct (m s) as [[[e|a] s1] t1]; simpl in *; [done|].
  specialize (Hk a s1). unfold final_state in *.
  destruct (k a s1) as [[r s2] t2]; simpl in *. congruence.
Qed.

Lemma reads_only_for_each {A} (l : list A) (body : A → M unit) :
  (∀ x, reads_only (body x)) → reads_only (for_each l body).
Proof.
  intros Hbody. induction l as [|x l IH]; simpl; [apply reads_only_ret|].
  apply reads_only_bind; auto.
Qed.

Ltac reads_only :=
  repeat match goal with
    | |- ∀ _, _ => intros
    | |- reads_only (bind _ _) => apply reads_only_bind
    | |- reads_only (ret _) => apply reads_only_ret
    | |- reads_only (raise _) => apply reads_only_raise
    | |- reads_only (lift _) => apply reads_only_lift
    | |- reads_only (emit _) => apply reads_only_emit
    | |- reads_only get => apply reads_only_get
    | |- reads_only (for_each _ _) => apply reads_only_for_each
    | |- reads_only (match ?x with _ => _ end) => destruct x
    | |- reads_only (if ?b then _ else _) => destruct b
    end.

Section ReadsOnly.
Context (rt : runtime).

Lemma reads_only_handle_generation_error resp e :
  reads_only (handle_generation_error rt resp e).
Proof. unfold handle_generation_error. reads_only. Qed.

Lemma reads_only_generate fragment gemini_model :
  reads_only (generate_qcm_with_gemini rt fragment gemini_model).
Proof.
  unfold generate_qcm_with_gemini. reads_only;
    apply reads_only_handle_generation_error.
Qed.

Lemma reads_only_form_checkboxes inp options keys user_choices :
  reads_only (form_checkboxes rt inp options keys user_choices).
Proof.
  revert user_choices. induction keys as [|key keys IH]; intros; simpl; reads_only; apply IH.
Qed.

Lemma reads_only_correction_block qcm correct_answers user_answers key :
  reads_only (correction_block rt qcm correct_answers user_answers key).
Proof. unfold correction_block. reads_only. Qed.

Lemma reads_only_display_correction : reads_only (display_correction rt).
Proof.
  unfold display_correction. reads_only. apply reads_only_correction_block.
Qed.

Lemma reads_only_configure_model inp : reads_only (configure_model rt inp).
Proof. unfold configure_model. reads_only. Qed.
End ReadsOnly.

Lemma hoare_bind {A B} P (m : M A) (R : A → session_state → Prop) (k : A → M B) Q :
  hoare P m (λ r s1, match r with inl e => Q (inl e) s1 | inr a => R a s1 end) →
  (∀ a, hoare (R a) (k a) Q) →
  hoare P (bind m k) Q.
Proof.
  intros Hm Hk s HP. specialize (Hm s HP). unfold bind, outcome, final_state in *.
  destruct (m s) as [[[e|a] s1] t1]; simpl in *; [done|].
  specialize (Hk a s1 Hm). unfold outcome, final_state in Hk.
  by destruct (k a s1) as [[r s2] t2].
Qed.

Lemma hoare_reads_only {A} P (m : M A) : reads_only m → hoare P m (λ _ s, P s).
Proof. intros Hm s HP. by rewrite Hm. Qed.

Lemma keeps_bind {A B} I (m : M A) (k : A → M B) :
  keeps I m → (∀ a, keeps I (k a)) → keeps I (bind m k).
Proof.
  intros Hm Hk. apply (hoare_bind I m (λ _, I)); [|exact Hk].
  intros s Hs. specialize (Hm s Hs). by destruct (outcome (m s)).
Qed.

Lemma keeps_reads_only {A} I (m : M A) : reads_only m → keeps I m.
Proof. apply hoare_reads_only. Qed.

Ltac keeps :=
  repeat match goal with
    | |- ∀ _, _ => intros
    | |- keeps _ (bind _ _) => apply keeps_bind
    | |- keeps _ (ret _) => apply keeps_reads_only, reads_only_ret
    | |- keeps _ (raise _) => apply keeps_reads_only, reads_only_raise
    | |- keeps _ (lift _) => apply keeps_reads_only, reads_only_lift
    | |- keeps _ (emit _) => apply keeps_reads_only, reads_only_emit
    | |- keeps _ get => apply keeps_reads_only, reads_only_get
    | |- keeps _ (match ?x with _ => _ end) => destruct x
    | |- keeps _ (if ?b then _ else _) => destruct b
    end.

(** ** C2: the overall verdict *)

Section ExactMatch.
Context (rt : runtime).

End ExactMatch.

(** ** Trimming and the code fence *)

Lemma lstrip_idemp s : lstrip (lstrip s) = lstrip s.
Proof.
  induction s as [|c s IH]; simpl; [done|].
  destruct (isspace c) eqn:E; [done|]. simpl. by rewrite E.
Qed.

Lemma lstrip_app_keep a b : lstrip b = b → lstrip (a ++ b) = lstrip a ++ b.
Proof.
  intros Hb. induction a as [|c a IH]; simpl; [exact Hb|].
  destruct (isspace c); [exact IH|reflexivity].
Qed.

Lemma strip_lstrip s : strip (lstrip s) = strip s.
Proof. unfold strip. by rewrite lstrip_idemp. Qed.

Lemma startswith_app p s : startswith (p ++ s) p = true.
Proof. induction p as [|c p IH]; simpl; [done|]. by rewrite N.eqb_refl, IH. Qed.

Lemma endswith_app s p : endswith (s ++ p) p = true.
Proof. unfold endswith. rewrite rev_app_distr. apply startswith_app. Qed.

Lemma slice_from_app {A} (p s : list A) : slice_from (length p) (p ++ s) = s.
Proof. apply drop_app_length. Qed.

Lemma slice_to_minus_app {A} (s p : list A) : slice_to_minus (length p) (s ++ p) = s.
Proof.
  unfold slice_to_minus. rewrite length_app.
  replace (length s + length p - length p)%nat with (length s) by lia.
  apply take_app_length.
Qed.

(** A text that ends with the closing fence keeps it when trimmed: a
    backquote is not white space. *)
Lemma strip_app_fence s : strip (s ++ fence) = lstrip s ++ fence.
Proof.
  unfold strip, rstrip. rewrite (lstrip_app_keep s fence) by reflexivity.
  rewrite rev_app_distr.
  change (rev fence) with [96%N; 96%N; 96%N].
  change (lstrip (([96%N; 96%N; 96%N]) ++ rev (lstrip s)))
    with (rev fence ++ rev (lstrip s)).
  by rewrite rev_app_distr, !rev_involutive.
Qed.

(** The text handed to [json.loads] when the trimmed response is one
    fenced block. *)
Lemma strip_code_fence_fenced response_text body :
  strip response_text = fence_json ++ body ++ fence →
  strip_code_fence response_text = strip body.
Proof.
  intros H. unfold strip_code_fence. rewrite H.
  rewrite startswith_app, slice_from_app, strip_app_fence, endswith_app,
    slice_to_minus_app.
  apply strip_lstrip.
Qed.

(** ** The generation function *)


Section Generation.
Context (rt : runtime).

(** What the generation returns is what the handler stores. *)
Lemma request_new_question_stores inp gemini_model s qcm t :
  course_lines s ≠ [] →
  (∀ s0, generate_qcm_with_gemini rt
           (select_fragment (course_lines s) (randint inp)) gemini_model s0
         = (inr qcm, s0, t)) →
  request_new_question rt inp gemini_model s =
    (inr tt,
     {| course_lines := course_lines s; current_qcm := qcm;
        show_correction := false; user_selection := [] |}, t).
Proof.
  intros Hlines Hgen.
  set (s0 := {| course_lines := course_lines s; current_qcm := current_qcm s;
                show_correction := false; user_selection := [] |}).
  assert (Hproduce : produce_question rt inp gemini_model s0 =
            (inr tt,
             {| course_lines := course_lines s; current_qcm := qcm;
                show_correction := false; user_selection := [] |}, t)).
  { unfold produce_question. rewrite bind_get. subst s0. cbn [course_lines].
    destruct (course_lines s) as [|line lines] eqn:Hcl; [done|].
    change (Z.of_nat (length (line :: lines)) =? 0) with false. cbv iota.
    unfold bind. rewrite Hgen. unfold set_current_qcm. cbn. by rewrite app_nil_r. }
  cbv beta iota delta [request_new_question bind set_show_correction set_user_selection].
  cbn [course_lines current_qcm show_correction user_selection].
  fold s0. by rewrite Hproduce.
Qed.

(** C4. When the text handed to [json.loads] is not valid JSON, the model is
    called once, one error is displayed whose message holds the raw response
    text and the decoder's message, and the function returns [None]; the
    handler of the button, called on a non-empty pool whose fragment gets
    this response, leaves [current_qcm] at [None]. *)
Theorem malformed_response_reported fragment gemini_model resp response_text msg s :
  generate_content gemini_model (build_prompt fragment) temperature = inr resp →
  text resp = inr response_text →
  json_loads rt (strip_code_fence response_text) = inl (JSONDecodeError msg) →
  generate_qcm_with_gemini rt fragment gemini_model s =
    (inr None, s,
     [gemini_call (build_prompt fragment) temperature;
      st_error (json_error_message rt response_text (JSONDecodeError msg))])
  ∧ json_error_message rt response_text (JSONDecodeError msg) =
      u "Erreur de décodage JSON de la réponse de Gemini. Réponse brute : '"
        ++ response_text ++ u "' Erreur: " ++ msg
  ∧ ∀ inp,
      course_lines s ≠ [] →
      select_fragment (course_lines s) (randint inp) = fragment →
      current_qcm (final_state (request_new_question rt inp gemini_model s)) = None.
Proof.
  intros Hcall Htext Hloads.
  assert (Hgen : ∀ s0,
    generate_qcm_with_gemini rt fragment gemini_model s0 =
      (inr None, s0,
       [gemini_call (build_prompt fragment) temperature;
        st_error (json_error_message rt response_text (JSONDecodeError msg))])).
  { intros s0. unfold generate_qcm_with_gemini, parse_response, bind, emit.
    rewrite Hcall, Htext, Hloads.
    unfold handle_generation_error, bind, lift, emit, ret. simpl. by rewrite Htext. }
  split; [apply Hgen|]. split; [reflexivity|].
  intros inp Hlines Hfragment.
  rewrite (request_new_question_stores inp gemini_model s None
             [gemini_call (build_prompt fragment) temperature;
              st_error (json_error_message rt response_text (JSONDecodeError msg))]);
    [done|done|].
  intros s0. rewrite Hfragment. apply Hgen.
Qed.

(** C5. When the trimmed response is [```json], a body and [```], the text
    handed to [json.loads] is the trimmed body, and when that decodes to an
    object the function returns it, with [fragment_source] attached, and
    displays no error. *)
Theorem fenced_response_parsed fragment gemini_model resp response_text body d s :
  generate_content gemini_model (build_prompt fragment) temperature = inr resp →
  text resp = inr response_text →
  strip response_text = fence_json ++ body ++ fence →
  json_loads rt (strip body) = inr (JObj d) →
  strip_code_fence response_text = strip body
  ∧ generate_qcm_with_gemini rt fragment gemini_model s =
      (inr (Some (<[k_fragment_source := JStr fragment]> d)), s,
       [gemini_call (build_prompt fragment) temperature]).
Proof.
  intros Hcall Htext Hfence Hloads.
  pose proof (strip_code_fence_fenced _ _ Hfence) as Hstrip.
  split; [exact Hstrip|].
  unfold generate_qcm_with_gemini, parse_response, bind, emit.
  by rewrite Hcall, Htext, Hstrip, Hloads.
Qed.

End Generation.

(** ** C3: the fragment sent to the model *)

Lemma select_lines_take_drop (lines : list str) (start_index : Z) :
  0 ≤ start_index →
  select_lines lines start_index = take 100 (drop (Z.to_nat start_index) lines).
Proof.
  intros Hs. unfold select_lines, py_slice, slice_bound, chunk_size.
  set (len := Z.of_nat (length lines)).
  destruct (Z.ltb_spec start_index 0); [lia|].
  destruct (Z.ltb_spec (start_index + 100) 0); [lia|].
  destruct (Z_le_gt_dec len start_index) as [Hge|Hlt].
  - rewrite !Z.min_r by lia. rewrite Z.sub_diag.
    rewrite !drop_ge by (subst len; lia). by rewrite !take_nil.
  - rewrite (Z.min_l start_index) by lia.
    destruct (Z_le_gt_dec (start_index + 100) len) as [Hfit|Hshort].
    + rewrite Z.min_l by lia. f_equal. lia.
    + rewrite Z.min_r by lia.
      rewrite !take_ge; [done| |]; rewrite length_drop; subst len; lia.
Qed.

Lemma splitlines_from_app cur line s :
  Forall (λ c, islinebreak c = false) line →
  splitlines_from cur (line ++ s) = splitlines_from (cur ++ line) s.
Proof.
  intros H. revert cur. induction H as [|c line Hc _ IH]; intros cur; simpl.
  - by rewrite app_nil_r.
  - rewrite Hc, IH. by rewrite <- app_assoc.
Qed.

Lemma splitlines_from_newline cur s :
  splitlines_from cur (newline ++ s) = cur :: splitlines_from [] s.
Proof. by destruct s. Qed.

(** Joining lines that are non-empty and free of line boundaries, then
    splitting, gives the lines back. *)
Lemma splitlines_join (lines : list str) :
  Forall clean_line lines →
  splitlines (join newline lines) = lines.
Proof.
  unfold splitlines. induction 1 as [|line lines [Hne Hline] Hrest IH]; [done|].
  destruct lines as [|line' lines].
  - simpl. rewrite <- (app_nil_r line) at 1. rewrite splitlines_from_app by done.
    simpl. by destruct line.
  - change (join newline (line :: line' :: lines))
      with (line ++ newline ++ join newline (line' :: lines)).
    rewrite splitlines_from_app by done. simpl app at 1.
    by rewrite splitlines_from_newline, IH.
Qed.

Lemma Forall_select_lines (P : str → Prop) lines start_index :
  Forall P lines → Forall P (select_lines lines start_index).
Proof.
  intros H. unfold select_lines, py_slice. by apply Forall_take, Forall_drop.
Qed.

(** C3. For a pool of [L] lines and a draw of [random.randint] within its
    bounds, the fragment is the selected lines joined by newlines, and the
    selected lines are [min L 100] lines contiguous in the pool.  With
    [L <= 100] the start index is 0 and the whole pool is used; otherwise the
    start index is the number drawn by [random.randint(0, L - 100)], used as
    it is (so the start index has the law of the draw, uniform on the
    inclusive range), and 100 lines are taken from there.  When the lines are non-empty and free of
    line boundaries, as the lines kept when a course is loaded are, the
    fragment splits back into exactly the selected lines. *)
Theorem fragment_window (lines : list str) (randint : Z → Z → Z) :
  (∀ a b, a ≤ b → a ≤ randint a b ≤ b) →
  let L := length lines in
  let start_index := choose_start_index (Z.of_nat L) randint in
  let selected_lines := select_lines lines start_index in
  select_fragment lines randint = join newline selected_lines
  ∧ length selected_lines = Nat.min L 100
  ∧ (∃ before after,
       lines = before ++ selected_lines ++ after
       ∧ Z.of_nat (length before) = start_index)
  ∧ ((L ≤ 100)%nat → start_index = 0 ∧ selected_lines = lines)
  ∧ ((100 < L)%nat →
     start_index = randint 0 (Z.of_nat L - 100)
     ∧ 0 ≤ start_index ≤ Z.of_nat L - 100
     ∧ selected_lines = take 100 (drop (Z.to_nat start_index) lines)
     ∧ ∀ r, choose_start_index (Z.of_nat L) (λ _ _, r) = r)
  ∧ (Forall clean_line lines →
     splitlines (select_fragment lines randint) = selected_lines).
Proof.
  intros Hrand L start_index selected_lines.
  assert (Hstart : 0 ≤ start_index ≤ Z.max 0 (Z.of_nat L - 100)
                   ∧ ((L ≤ 100)%nat → start_index = 0)
                   ∧ ((100 < L)%nat → start_index = randint 0 (Z.of_nat L - 100))).
  { subst start_index. unfold choose_start_index, chunk_size.
    destruct (Z.leb_spec (Z.of_nat L) 100) as [Hle|Hgt].
    - split; [lia|]. split; [done|lia].
    - pose proof (Hrand 0 (Z.of_nat L - 100) ltac:(lia)).
      split; [lia|]. split; [lia|done]. }
  destruct Hstart as (Hrange & Hsmall & Hlarge).
  assert (Hsel : selected_lines = take 100 (drop (Z.to_nat start_index) lines)).
  { subst selected_lines. apply select_lines_take_drop. lia. }
  assert (Hlen : length selected_lines = Nat.min L 100).
  { rewrite Hsel, length_take, length_drop. fold L. lia. }
  split; [reflexivity|].
  split; [exact Hlen|].
  split.
  { exists (take (Z.to_nat start_index) lines),
      (drop 100 (drop (Z.to_nat start_index) lines)).
    split.
    - by rewrite Hsel, take_drop, take_drop.
    - rewrite length_take. fold L. lia. }
  split.
  { intros Hle. split; [by apply Hsmall|].
    rewrite Hsel, (Hsmall Hle). simpl. apply take_ge. fold L. lia. }
  split.
  { intros Hgt. split; [by apply Hlarge|]. split; [lia|]. split; [exact Hsel|].
    intros r. unfold choose_start_index, chunk_size.
    destruct (Z.leb_spec (Z.of_nat L) 100); [lia|done]. }
  intros Hlines. unfold select_fragment. apply splitlines_join.
  by apply Forall_select_lines.
Qed.

(** ** The line pool *)

Lemma splitlines_from_no_linebreak_below n : ∀ s cur,
  (length s < n)%nat →
  Forall (λ c, islinebreak c = false) cur →
  Forall (Forall (λ c, islinebreak c = false)) (splitlines_from cur s).
Proof.
  induction n as [|n IH]; intros s cur Hlen Hcur; [lia|].
  destruct s as [|c s]; simpl in *.
  - destruct cur; repeat constructor; by inversion Hcur.
  - destruct (islinebreak c) eqn:Hc.
    + destruct s as [|c' s'].
      * repeat constructor; done.
      * destruct ((c =? 13)%N && (c' =? 10)%N); constructor; try done;
          apply IH; simpl in *; try lia; constructor.
    + apply IH; [lia|]. apply Forall_app. split; [done|]. by repeat constructor.
Qed.

Lemma splitlines_no_linebreak s :
  Forall (Forall (λ c, islinebreak c = false)) (splitlines s).
Proof.
  apply (splitlines_from_no_linebreak_below (S (length s))); [lia|constructor].
Qed.

Lemma strip_truthy_nonempty line : str_truthy (strip line) = true → line ≠ [].
Proof. by intros H ->. Qed.

(** Whatever is loaded, the lines kept are non-empty and free of line
    boundaries. *)
Lemma load_course_clean course_text s :
  lines_clean s → lines_clean (final_state (load_course course_text s)).
Proof.
  intros Hs. unfold load_course, lines_clean.
  destruct (str_truthy (strip course_text)); simpl; [|constructor].
  set (kept := List.filter _ _).
  assert (Hkept : Forall clean_line kept).
  { apply Forall_forall. intros line [Hin Htruthy]%list_elem_of_In%filter_In.
    split; [by apply strip_truthy_nonempty|].
    pose proof (splitlines_no_linebreak course_text) as Hall.
    rewrite Forall_forall in Hall. apply Hall. by apply list_elem_of_In. }
  unfold bind, set_course_lines, get. simpl.
  destruct kept; simpl; [constructor|exact Hkept].
Qed.

Lemma keeps_clean_set_current_qcm v : keeps lines_clean (set_current_qcm v).
Proof. by intros s Hs. Qed.

Lemma keeps_clean_set_show_correction v : keeps lines_clean (set_show_correction v).
Proof. by intros s Hs. Qed.

Lemma keeps_clean_set_user_selection v : keeps lines_clean (set_user_selection v).
Proof. by intros s Hs. Qed.

Section LinePool.
Context (rt : runtime) (inp : inputs).

Lemma keeps_clean_sidebar : keeps lines_clean (sidebar inp).
Proof.
  unfold sidebar, read_course_text. keeps; intros s Hs; by apply load_course_clean.
Qed.

Lemma keeps_clean_main_logic gemini_model :
  keeps lines_clean (main_logic rt inp gemini_model).
Proof.
  unfold main_logic, request_new_question, produce_question.
  keeps; try apply keeps_clean_set_current_qcm;
    try apply keeps_clean_set_show_correction;
    try apply keeps_clean_set_user_selection.
  apply keeps_reads_only, reads_only_generate.
Qed.

Lemma keeps_clean_display_qcm : keeps lines_clean (display_qcm rt inp).
Proof.
  unfold display_qcm.
  keeps; try apply keeps_clean_set_show_correction;
    try apply keeps_clean_set_user_selection.
  apply keeps_reads_only, reads_only_form_checkboxes.
Qed.

(** Every run of the script keeps the lines of the pool non-empty and free
    of line boundaries; the pool of a new session is empty. *)
Lemma script_keeps_lines_clean : keeps lines_clean (script rt inp).
Proof.
  unfold script. keeps.
  - apply keeps_clean_sidebar.
  - apply keeps_reads_only, reads_only_configure_model.
  - apply keeps_clean_main_logic.
  - apply keeps_clean_display_qcm.
  - apply keeps_reads_only, reads_only_display_correction.
Qed.
End LinePool.

Lemma initial_state_lines_clean : lines_clean initial_state.
Proof. constructor. Qed.

(** ** C6: loading a blank course *)

(** C6, as the script does it.  Loading a text that is empty once trimmed
    empties [course_lines] and displays one warning; the current question,
    the recorded selection and the correction flag stay as they were. *)
Theorem load_course_blank (course_text : str) (s : session_state) :
  strip course_text = [] →
  load_course course_text s =
    (inr tt,
     {| course_lines := []; current_qcm := current_qcm s;
        show_correction := show_correction s; user_selection := user_selection s |},
     [st_warning (u "Veuillez fournir du texte pour l'analyse.")]).
Proof. intros H. unfold load_course. by rewrite H. Qed.

(** ** C8: resetting the answer state *)

Lemma keeps_hidden_set_course_lines v : keeps correction_hidden (set_course_lines v).
Proof. by intros s Hs. Qed.

Lemma keeps_hidden_set_current_qcm v : keeps correction_hidden (set_current_qcm v).
Proof. by intros s Hs. Qed.

Lemma keeps_hidden_set_show_correction_false :
  keeps correction_hidden (set_show_correction false).
Proof. by intros s Hs. Qed.

Lemma keeps_reset_set_current_qcm v : keeps answers_reset (set_current_qcm v).
Proof. by intros s Hs. Qed.

Section AnswerState.
Context (rt : runtime).

Lemma keeps_reset_produce_question inp gemini_model :
  keeps answers_reset (produce_question rt inp gemini_model).
Proof.
  unfold produce_question. keeps; try apply keeps_reset_set_current_qcm.
  apply keeps_reads_only, reads_only_generate.
Qed.

(** The question is produced from the state in which the answers are reset. *)
Lemma request_new_question_from_reset inp gemini_model s :
  request_new_question rt inp gemini_model s =
    produce_question rt inp gemini_model
      {| course_lines := course_lines s; current_qcm := current_qcm s;
         show_correction := false; user_selection := [] |}.
Proof.
  unfold request_new_question, bind. simpl.
  by destruct (produce_question rt inp gemini_model _) as [[r s1] t1].
Qed.

(** On a non-empty pool the handler calls the model, first of all, with the
    prompt built around the selected fragment. *)
Lemma request_new_question_prompt inp gemini_model s :
  course_lines s ≠ [] →
  ∃ t, trace (request_new_question rt inp gemini_model s) =
         gemini_call (build_prompt (select_fragment (course_lines s) (randint inp)))
           temperature :: t.
Proof.
  intros Hlines. rewrite request_new_question_from_reset.
  unfold produce_question. rewrite bind_get. cbn [course_lines].
  destruct (course_lines s) as [|line lines] eqn:Hcl; [done|].
  change (Z.of_nat (length (line :: lines)) =? 0) with false. cbv iota.
  unfold generate_qcm_with_gemini. rewrite bind_assoc, trace_bind_emit.
  by eexists.
Qed.

Lemma request_new_question_resets inp gemini_model s :
  answers_reset (final_state (request_new_question rt inp gemini_model s)).
Proof.
  rewrite request_new_question_from_reset.
  by apply keeps_reset_produce_question.
Qed.

Lemma keeps_hidden_load_course course_text :
  keeps correction_hidden (load_course course_text).
Proof.
  unfold load_course.
  keeps; auto using keeps_hidden_set_course_lines, keeps_hidden_set_current_qcm,
    keeps_hidden_set_show_correction_false.
Qed.

Lemma keeps_hidden_sidebar inp : keeps correction_hidden (sidebar inp).
Proof.
  unfold sidebar, read_course_text. keeps; apply keeps_hidden_load_course.
Qed.

Lemma keeps_hidden_request_new_question inp gemini_model :
  keeps correction_hidden (request_new_question rt inp gemini_model).
Proof.
  intros s _. apply request_new_question_resets.
Qed.

Lemma keeps_hidden_main_logic inp gemini_model :
  keeps correction_hidden (main_logic rt inp gemini_model).
Proof.
  unfold main_logic. keeps; apply keeps_hidden_request_new_question.
Qed.
End AnswerState.

Lemma hoare_bind_reads_only {A B} s (m : M A) (k : A → M B) Q :
  reads_only m → (∀ e, Q (inl e) s) → (∀ a, hoare (eq s) (k a) Q) →
  hoare (eq s) (bind m k) Q.
Proof.
  intros Hm He Hk. apply (hoare_bind _ m (λ _, eq s)); [|exact Hk].
  intros s' <-. rewrite Hm. by destruct (outcome (m s)).
Qed.

Section SubmitOnly.
Context (rt : runtime) (inp : inputs).

Lemma hidden_raised_by_submit r s : correction_hidden s → raised_by_submit inp r s.
Proof. unfold correction_hidden, raised_by_submit. congruence. Qed.

Lemma hoare_bind_hidden {A} (m : M A) (k : A → M unit) :
  keeps correction_hidden m →
  (∀ a, hoare correction_hidden (k a) (raised_by_submit inp)) →
  hoare correction_hidden (bind m k) (raised_by_submit inp).
Proof.
  intros Hm Hk. apply (hoare_bind _ m (λ _, correction_hidden)); [|exact Hk].
  intros s Hs. specialize (Hm s Hs).
  destruct (outcome (m s)); [by apply hidden_raised_by_submit|done].
Qed.

Lemma display_qcm_flag :
  hoare correction_hidden (display_qcm rt inp)
    (λ r s', match r with
             | inl e => raised_by_submit inp (inl e) s'
             | inr _ => correction_hidden s'
             end).
Proof.
  intros s Hs. unfold display_qcm. rewrite bind_get.
  destruct (qcm_truthy (current_qcm s)) as [qcm|] eqn:Hq; [|exact Hs].
  match goal with |- context [outcome (?m s)] =>
    cut (hoare (eq s) m
           (λ r s', match r with
                    | inl e => raised_by_submit inp (inl e) s'
                    | inr _ => correction_hidden s'
                    end)); [intros H; exact (H s eq_refl)|]
  end.
  repeat (apply hoare_bind_reads_only;
          [first [apply reads_only_emit | apply reads_only_lift
                 | apply reads_only_form_checkboxes]
          |intros; by apply hidden_raised_by_submit
          |intros]).
  intros s0 <-. destruct (form_submit_button inp) eqn:Hsubmit; [|exact Hs].
  intros _. split; [done|]. split; [done|].
  change (is_Some (qcm_truthy (current_qcm s))). rewrite Hq. by eexists.
Qed.

Lemma script_flag : hoare correction_hidden (script rt inp) (raised_by_submit inp).
Proof.
  unfold script.
  do 2 (apply hoare_bind_hidden; [apply keeps_reads_only, reads_only_emit|intros _]).
  apply hoare_bind_hidden; [apply keeps_hidden_sidebar|intros _].
  apply hoare_bind_hidden;
    [apply keeps_reads_only, reads_only_configure_model|intros gemini_model].
  apply hoare_bind_hidden; [apply keeps_hidden_main_logic|intros _].
  apply (hoare_bind _ _ (λ _, correction_hidden)); [apply display_qcm_flag|intros _].
  intros s Hs. apply hidden_raised_by_submit.
  by rewrite reads_only_display_correction.
Qed.

(** C8. The handler of "Générer un nouveau QCM" first empties the selection
    and hides the correction: the fragment is chosen and the model called
    from the state in which both are reset, and whatever the generation does
    (a question, an error, an exception) they are still reset when the
    handler ends.  And a run of the script that starts with the correction
    hidden ends with it shown only if the answer form was submitted: that
    run stops on [st.rerun()] with a current question in place. *)
Theorem new_question_resets_answers :
  (∀ gemini_model s,
     request_new_question rt inp gemini_model s =
       produce_question rt inp gemini_model
         {| course_lines := course_lines s; current_qcm := current_qcm s;
            show_correction := false; user_selection := [] |}
     ∧ answers_reset (final_state (request_new_question rt inp gemini_model s)))
  ∧ (∀ s,
       show_correction s = false →
       show_correction (final_state (script rt inp s)) = true →
       form_submit_button inp = true
       ∧ outcome (script rt inp s) = inl RerunException
       ∧ is_Some (qcm_truthy (current_qcm (final_state (script rt inp s))))).
Proof.
  split.
  - intros. split.
    + apply request_new_question_from_reset.
    + apply request_new_question_resets.
  - intros s Hs Hshown. exact (script_flag s Hs Hshown).
Qed.
End SubmitOnly.

(** ** The correction display on a well-formed question *)

Lemma elem_of_option_keys (opts : gmap str json) k :
  k ∈ option_keys opts ↔ is_Some (opts !! k).
Proof.
  unfold option_keys. rewrite elem_of_sorted_strs, list_elem_of_fmap. split.
  - intros [[k' v] [-> Hin]]. apply elem_of_map_to_list in Hin. by eexists.
  - intros [v Hv]. exists (k, v). split; [done|]. by apply elem_of_map_to_list.
Qed.

Lemma NoDup_option_keys (opts : gmap str json) : NoDup (option_keys opts).
Proof. apply NoDup_sorted_strs, NoDup_fst_map_to_list. Qed.

Lemma qcm_truthy_lookup (qcm : gmap str json) k v :
  qcm !! k = Some v → qcm_truthy (Some qcm) = Some qcm.
Proof.
  intros Hk. unfold qcm_truthy.
  destruct (size qcm) eqn:Hsize; [|done].
  apply map_size_empty_iff in Hsize. subst qcm. by rewrite lookup_empty in Hk.
Qed.

Lemma for_each_events {A} (l : list A) (body : A → M unit) (ev : A → event) s :
  (∀ x, x ∈ l → body x s = (inr tt, s, [ev x])) →
  for_each l body s = (inr tt, s, ev <$> l).
Proof.
  induction l as [|x l IH]; intros Hbody; [done|].
  simpl. unfold bind. rewrite Hbody by apply list_elem_of_here.
  rewrite IH; [done|]. intros y Hy. apply Hbody. by apply list_elem_of_further.
Qed.

Section Correction.
Context (rt : runtime).

Lemma correction_block_typed qcm opts expl correct correct_answers user_answers key s :
  mcq_fields qcm opts expl correct →
  is_Some (opts !! key) →
  correction_block rt qcm correct_answers user_answers key s =
    (inr tt, s, [correction_event rt opts expl correct_answers user_answers key]).
Proof.
  intros (Hopts & _ & Hexpl) [v Hv].
  unfold correction_block, correction_event, dict_getitem.
  rewrite Hopts, bind_lift_inr. simpl subscript. unfold dict_getitem.
  rewrite Hv, bind_lift_inr, Hexpl, bind_lift_inr. simpl py_get.
  rewrite bind_lift_inr. by destruct (expl !! key).
Qed.

(** The whole display of lines 203-254 on a well-formed question. *)
Lemma display_correction_typed s qcm opts expl correct :
  show_correction s = true →
  current_qcm s = Some qcm →
  mcq_fields qcm opts expl correct →
  let correct_answers := JStr <$> sorted_strs correct in
  display_correction rt s =
    (inr tt, s,
     [st_markdown (u "---"); st_subheader (JStr (u "Correction détaillée"));
      banner (is_fully_correct (user_selection s) correct_answers)]
     ++ (correction_event rt opts expl correct_answers (user_selection s)
           <$> option_keys opts)).
Proof.
  intros Hshow Hqcm Hfields correct_answers.
  pose proof Hfields as (Hopts & Hcorrect & Hexpl).
  unfold display_correction. rewrite bind_get, Hshow, Hqcm.
  rewrite (qcm_truthy_lookup _ _ _ Hopts).
  unfold dict_getitem. rewrite Hcorrect, bind_lift_inr, py_sorted_strs, bind_lift_inr.
  fold correct_answers.
  rewrite !bind_emit.
  assert (Hloop :
    (let* options := lift (match qcm !! k_options with
                           | Some v => inr v | None => inl (KeyError k_options) end) in
     let* keys := lift (py_keys options) in
     for_each (sorted_strs keys)
       (correction_block rt qcm correct_answers (user_selection s))) s
    = (inr tt, s,
       correction_event rt opts expl correct_answers (user_selection s)
         <$> option_keys opts)).
  { rewrite Hopts, bind_lift_inr. simpl py_keys. rewrite bind_lift_inr.
    apply for_each_events. intros key Hkey.
    apply (correction_block_typed _ _ _ _ _ _ _ _ Hfields).
    by apply elem_of_option_keys. }
  unfold banner.
  destruct (is_fully_correct (user_selection s) correct_answers);
    rewrite bind_emit, Hloop; reflexivity.
Qed.
End Correction.

(** ** The answer form on a well-formed question *)

Lemma NoDup_bool_filter {A} (f : A → bool) (l : list A) :
  NoDup l → NoDup (List.filter f l).
Proof.
  induction 1 as [|x l Hx Hl IH]; simpl; [constructor|].
  destruct (f x); [|exact IH]. constructor; [|exact IH].
  rewrite list_elem_of_In, filter_In, <- list_elem_of_In. tauto.
Qed.

Section Form.
Context (rt : runtime) (inp : inputs).

(** The boxes that come back ticked, in display order, are the choices. *)
Lemma form_checkboxes_typed (opts : gmap str json) keys user_choices s :
  (∀ k, k ∈ keys → is_Some (opts !! k)) →
  outcome (form_checkboxes rt inp (JObj opts) keys user_choices s)
    = inr (user_choices ++ List.filter (ticked inp s) keys)
  ∧ final_state (form_checkboxes rt inp (JObj opts) keys user_choices s) = s.
Proof.
  revert user_choices. induction keys as [|key keys IH]; intros user_choices Hkeys.
  - simpl. by rewrite app_nil_r.
  - destruct (Hkeys key (list_elem_of_here _ _)) as [v Hv].
    assert (Hrest : ∀ k, k ∈ keys → is_Some (opts !! k)).
    { intros k Hk. apply Hkeys. by apply list_elem_of_further. }
    cbn [form_checkboxes subscript]. unfold dict_getitem.
    rewrite Hv, bind_lift_inr, bind_get, bind_emit.
    cbn [List.filter]. fold (ticked inp s key).
    unfold outcome, final_state in *. cbn [fst snd].
    destruct (ticked inp s key).
    + destruct (IH (user_choices ++ [key]) Hrest) as [Ho Hs].
      rewrite Ho, Hs. by rewrite <- app_assoc.
    + destruct (IH user_choices Hrest) as [Ho Hs]. by rewrite Ho, Hs.
Qed.

(** A question that has its fields is displayed without error.  The run
    stops on [st.rerun()] exactly when the form is submitted, and then the
    ticked boxes, sorted, are recorded as the selection and the correction
    flag is raised. *)
Lemma display_qcm_typed s qcm opts expl correct fragment_source question :
  current_qcm s = Some qcm →
  qcm !! k_fragment_source = Some fragment_source →
  qcm !! k_question = Some question →
  mcq_fields qcm opts expl correct →
  outcome (display_qcm rt inp s)
    = (if form_submit_button inp then inl RerunException else inr tt)
  ∧ final_state (display_qcm rt inp s)
    = (if form_submit_button inp
       then {| course_lines := course_lines s; current_qcm := Some qcm;
               show_correction := true;
               user_selection :=
                 sorted_strs (List.filter (ticked inp s) (option_keys opts)) |}
       else s).
Proof.
  intros Hqcm Hfragment Hquestion (Hopts & _ & _).
  unfold display_qcm. rewrite bind_get, Hqcm, (qcm_truthy_lookup _ _ _ Hopts).
  unfold dict_getitem.
  rewrite outcome_bind_emit, final_state_bind_emit, Hfragment, bind_lift_inr.
  rewrite outcome_bind_emit, final_state_bind_emit, Hquestion, bind_lift_inr.
  rewrite outcome_bind_emit, final_state_bind_emit, Hopts, bind_lift_inr.
  simpl py_keys. rewrite bind_lift_inr. fold (option_keys opts).
  destruct (form_checkboxes_typed opts (option_keys opts) [] s) as [Ho Hs].
  { intros k. apply elem_of_option_keys. }
  unfold bind.
  rewrite (run_eta (form_checkboxes rt inp (JObj opts) (option_keys opts) [] s)).
  rewrite Ho, Hs.
  destruct (form_submit_button inp); split; try reflexivity.
  unfold final_state, set_user_selection, set_show_correction, raise. simpl.
  by rewrite Hqcm.
Qed.

(** The selection a submission records has no repeated key and holds the
    option keys whose box is ticked. *)
Lemma submitted_selection (s : session_state) (opts : gmap str json) :
  let selection := sorted_strs (List.filter (ticked inp s) (option_keys opts)) in
  NoDup selection
  ∧ ∀ k, k ∈ selection ↔ is_Some (opts !! k) ∧ ticked inp s k = true.
Proof.
  split.
  - apply NoDup_sorted_strs, NoDup_bool_filter, NoDup_option_keys.
  - intros k. rewrite elem_of_sorted_strs, list_elem_of_In, filter_In,
      <- list_elem_of_In, elem_of_option_keys. done.
Qed.
End Form.

(** ** C1, C9: the verdicts *)

Lemma status_text_inj v1 v2 : status_text (Some v1) = status_text (Some v2) → v1 = v2.
Proof. destruct v1, v2; intros H; try reflexivity; vm_compute in H; discriminate. Qed.

Lemma py_in_sorted k correct :
  py_in k (JStr <$> sorted_strs correct) = true ↔ k ∈ correct.
Proof. by rewrite py_in_fmap, elem_of_sorted_strs. Qed.

(** The truth table of lines 231-250. *)
Lemma grade_option_table correct user_answers k :
  let v := grade_option (JStr <$> sorted_strs correct) user_answers k in
  (v = Some CorrectChosen ↔ k ∈ correct ∧ k ∈ user_answers)
  ∧ (v = Some CorrectMissed ↔ k ∈ correct ∧ k ∉ user_answers)
  ∧ (v = Some IncorrectChosen ↔ (k ∉ correct) ∧ k ∈ user_answers)
  ∧ (v = Some IncorrectAvoided ↔ (k ∉ correct) ∧ k ∉ user_answers).
Proof.
  unfold grade_option, classify.
  pose proof (py_in_sorted k correct) as Hc.
  destruct (py_in k (JStr <$> sorted_strs correct));
    destruct (bool_decide_reflect (k ∈ user_answers)) as [Hu|Hu]; simpl.
  1, 2: assert (Hc' : k ∈ correct) by (by apply Hc).
  3, 4: assert (Hc' : k ∉ correct) by (intros Hin; apply Hc in Hin; done).
  all: clear Hc; repeat split; try done; try (intros [? ?]; done).
Qed.

Lemma st_markdown_inj a b : st_markdown a = st_markdown b → a = b.
Proof. by intros [= ->]. Qed.

(** The blocks of two verdicts differ, by their colour or by their status
    text. *)
Lemma block_texts_differ (key value explanation : str) v1 v2 :
  let block (colour icon status : str) :=
    st_markdown
      (u "<div style='background-color: " ++ colour
         ++ u "; padding: 10px; border-radius: 5px; margin-bottom: 10px;'>"
         ++ icon ++ u " **Option " ++ key ++ u " (" ++ status ++ u ")**: "
         ++ value ++ u "<br>" ++ u "**Explication :** " ++ explanation
         ++ u "</div>") in
  let shown (v : verdict) :=
    match v with
    | CorrectChosen =>
        block (u "rgba(40, 167, 69, 0.2)") (u "✅") (u "Correcte (Votre choix)")
    | CorrectMissed =>
        block (u "rgba(220, 53, 69, 0.2)") (u "❌") (u "Correcte (Manquée)")
    | IncorrectChosen =>
        block (u "rgba(220, 53, 69, 0.2)") (u "❌") (u "Incorrecte (Votre choix)")
    | IncorrectAvoided =>
        block (u "rgba(40, 167, 69, 0.2)") (u "✅") (u "Incorrecte (Non sélectionnée)")
    end in
  shown v1 = shown v2 → v1 = v2.
Proof.
  intros block shown Hblocks.
  destruct v1, v2; try reflexivity; exfalso; subst shown block;
    apply st_markdown_inj, app_inv_head in Hblocks;
    first [ apply (f_equal (take 6)) in Hblocks; vm_compute in Hblocks;
            discriminate Hblocks
          | do 6 apply app_inv_head in Hblocks;
            apply (f_equal (take 1)) in Hblocks; vm_compute in Hblocks;
            discriminate Hblocks ].
Qed.

Section Grading.
Context (rt : runtime).

(** C1. For a question whose options and explanations are objects and whose
    correct answers are a list of keys, and for every recorded selection, the
    correction displays one block per option key, each key once, and the
    verdict in the block of a key is one of the four, given by the truth
    table on "the key is a correct answer" and "the key is selected".  The
    block of a key is the [div] of lines 252-254 with the colour, the icon and
    the status text of its verdict: green, a tick and "Correcte (Votre
    choix)"; red, a cross and "Correcte (Manquée)"; red, a cross and
    "Incorrecte (Votre choix)"; green, a tick and "Incorrecte (Non
    sélectionnée)"; so two verdicts never give the same block.  When the
    correct answers are option keys, the keys graded CorrectChosen or
    CorrectMissed are exactly the correct answers, and those graded
    IncorrectChosen or IncorrectAvoided exactly the other option keys. *)
Theorem grading_partition s qcm opts expl correct :
  show_correction s = true →
  current_qcm s = Some qcm →
  mcq_fields qcm opts expl correct →
  let selection := user_selection s in
  let correct_answers := JStr <$> sorted_strs correct in
  let verdict_of := grade_option correct_answers selection in
  trace (display_correction rt s) =
    [st_markdown (u "---"); st_subheader (JStr (u "Correction détaillée"));
     banner (is_fully_correct selection correct_answers)]
    ++ (correction_event rt opts expl correct_answers selection <$> option_keys opts)
  ∧ NoDup (option_keys opts)
  ∧ (∀ k, k ∈ option_keys opts ↔ is_Some (opts !! k))
  ∧ (∀ k,
       (verdict_of k = Some CorrectChosen ↔ k ∈ correct ∧ k ∈ selection)
       ∧ (verdict_of k = Some CorrectMissed ↔ k ∈ correct ∧ k ∉ selection)
       ∧ (verdict_of k = Some IncorrectChosen ↔ (k ∉ correct) ∧ k ∈ selection)
       ∧ (verdict_of k = Some IncorrectAvoided ↔ (k ∉ correct) ∧ k ∉ selection))
  ∧ (∀ k, ∃ v, verdict_of k = Some v)
  ∧ ((∀ k, k ∈ correct → is_Some (opts !! k)) →
     ∀ k,
       (is_Some (opts !! k)
        ∧ (verdict_of k = Some CorrectChosen ∨ verdict_of k = Some CorrectMissed)
        ↔ k ∈ correct)
       ∧ (is_Some (opts !! k)
          ∧ (verdict_of k = Some IncorrectChosen ∨ verdict_of k = Some IncorrectAvoided)
          ↔ is_Some (opts !! k) ∧ k ∉ correct))
  ∧ (∀ (k : str) (value : json),
       opts !! k = Some value →
       let explanation :=
         default (JStr (u "Pas d'explication fournie.")) (expl !! k) in
       let block (colour icon status : str) :=
         st_markdown
           (u "<div style='background-color: " ++ colour
              ++ u "; padding: 10px; border-radius: 5px; margin-bottom: 10px;'>"
              ++ icon ++ u " **Option " ++ k ++ u " (" ++ status ++ u ")**: "
              ++ format_value rt value ++ u "<br>"
              ++ u "**Explication :** " ++ format_value rt explanation
              ++ u "</div>") in
       let shown (v : verdict) :=
         match v with
         | CorrectChosen =>
             block (u "rgba(40, 167, 69, 0.2)") (u "✅") (u "Correcte (Votre choix)")
         | CorrectMissed =>
             block (u "rgba(220, 53, 69, 0.2)") (u "❌") (u "Correcte (Manquée)")
         | IncorrectChosen =>
             block (u "rgba(220, 53, 69, 0.2)") (u "❌") (u "Incorrecte (Votre choix)")
         | IncorrectAvoided =>
             block (u "rgba(40, 167, 69, 0.2)") (u "✅")
               (u "Incorrecte (Non sélectionnée)")
         end in
       (∀ v, verdict_of k = Some v →
             correction_event rt opts expl correct_answers selection k = shown v)
       ∧ (∀ v1 v2, shown v1 = shown v2 → v1 = v2)).
Proof.
  intros Hshow Hqcm Hfields selection correct_answers verdict_of.
  split; [by rewrite (display_correction_typed rt s qcm opts expl correct)|].
  split; [apply NoDup_option_keys|].
  split; [apply elem_of_option_keys|].
  split; [intros k; apply grade_option_table|].
  split.
  { intros k. unfold verdict_of, grade_option, classify.
    destruct (py_in k correct_answers), (bool_decide (k ∈ selection)); by eexists. }
  split.
  { intros Hsub k.
    destruct (grade_option_table correct selection k) as (Hcc & Hcm & Hic & Hia).
    fold correct_answers in Hcc, Hcm, Hic, Hia. fold verdict_of in Hcc, Hcm, Hic, Hia.
    rewrite Hcc, Hcm, Hic, Hia.
    destruct (decide (k ∈ selection)); split; split; try tauto.
    all: intros Hk; split; [by apply Hsub|tauto]. }
  intros k value Hvalue explanation block shown. split.
  - intros v Hv. unfold correction_event. unfold verdict_of in Hv.
    rewrite Hv, Hvalue. destruct v; reflexivity.
  - intros v1 v2 Hblocks. apply (block_texts_differ _ _ _ _ _ Hblocks).
Qed.

(** From the form to the banner: when the answer form of a well-formed
    question is submitted, the correction of the state this leaves announces
    a right answer exactly when the ticked option keys are the correct
    answers. *)
Lemma submitted_answer_graded inp s qcm opts expl correct fragment_source question :
  current_qcm s = Some qcm →
  qcm !! k_fragment_source = Some fragment_source →
  qcm !! k_question = Some question →
  mcq_fields qcm opts expl correct →
  form_submit_button inp = true →
  NoDup correct →
  let s' := final_state (display_qcm rt inp s) in
  let correct_answers := JStr <$> sorted_strs correct in
  trace (display_correction rt s') =
    [st_markdown (u "---"); st_subheader (JStr (u "Correction détaillée"));
     banner (is_fully_correct (user_selection s') correct_answers)]
    ++ (correction_event rt opts expl correct_answers (user_selection s')
          <$> option_keys opts)
  ∧ (is_fully_correct (user_selection s') correct_answers = true
     ↔ ∀ k, k ∈ correct ↔ is_Some (opts !! k) ∧ ticked inp s k = true).
Proof.
  intros Hqcm Hfragment Hquestion Hfields Hsubmit Hcorrect s' correct_answers.
  destruct (display_qcm_typed rt inp s qcm opts expl correct fragment_source question)
    as [_ Hstate]; try done.
  rewrite Hsubmit in Hstate. fold s' in Hstate.
  destruct (submitted_selection inp s opts) as [Hnodup Hmem].
  split.
  - rewrite (display_correction_typed rt s' qcm opts expl correct); try done;
      by rewrite Hstate.
  - rewrite Hstate. cbn [user_selection]. subst correct_answers.
    rewrite is_fully_correct_perm. split.
    + intros Hperm k. rewrite <- Hmem, elem_of_sorted_strs. by rewrite Hperm.
    + intros Hk. apply NoDup_Permutation; [|done|].
      * by apply NoDup_sorted_strs.
      * intros k.
        rewrite <- (elem_of_sorted_strs k (List.filter (ticked inp s) (option_keys opts))).
        rewrite Hmem. symmetry. apply Hk.
Qed.

(** C9. On a question that has its fields, and for every recorded selection,
    with or without keys that are not options, the correction runs to its
    end without raising and leaves the session state as it was; its blocks
    are those of the option keys, so a selected key that is not an option
    gets no block, hence no verdict. *)
Theorem grading_total s qcm opts expl correct :
  show_correction s = true →
  current_qcm s = Some qcm →
  mcq_fields qcm opts expl correct →
  let selection := user_selection s in
  let correct_answers := JStr <$> sorted_strs correct in
  outcome (display_correction rt s) = inr tt
  ∧ final_state (display_correction rt s) = s
  ∧ trace (display_correction rt s) =
      [st_markdown (u "---"); st_subheader (JStr (u "Correction détaillée"));
       banner (is_fully_correct selection correct_answers)]
      ++ (correction_event rt opts expl correct_answers selection <$> option_keys opts)
  ∧ (∀ k, k ∈ selection → opts !! k = None → k ∉ option_keys opts)
  ∧ (∀ k, k ∈ option_keys opts →
          is_Some (grade_option correct_answers selection k)).
Proof.
  intros Hshow Hqcm Hfields selection correct_answers.
  rewrite (display_correction_typed rt s qcm opts expl correct) by done.
  split; [done|]. split; [done|]. split; [done|]. split.
  - intros k _ Hnone [v Hv]%elem_of_option_keys. congruence.
  - intros k _. unfold grade_option, classify.
    destruct (py_in k correct_answers), (bool_decide (k ∈ selection)); by eexists.
Qed.
End Grading.

(** ** C7: missing fields *)

Section MissingFields.
Context (rt : runtime) (inp : inputs).

Lemma display_qcm_missing_question s qcm fragment_source :
  current_qcm s = Some qcm →
  qcm !! k_fragment_source = Some fragment_source →
  qcm !! k_question = None →
  outcome (display_qcm rt inp s) = inl (KeyError k_question).
Proof.
  intros Hqcm Hfragment Hquestion.
  unfold display_qcm. rewrite bind_get, Hqcm, (qcm_truthy_lookup _ _ _ Hfragment).
  unfold dict_getitem.
  rewrite outcome_bind_emit, Hfragment, bind_lift_inr.
  by rewrite outcome_bind_emit, Hquestion.
Qed.

(** C7, as the script does it.  A missing explanation is the one absence
    the display handles: on a question that has [question], [options] (an
    object), [correct_answers] (a list of strings) and [explanations] (an
    object), the form is displayed without error (the run stops on
    [st.rerun()] when the form is submitted), the correction runs to its
    end, and the block of every option key that has no explanation shows
    the placeholder.  A question without its [question] field makes the
    display raise [KeyError]. *)
Theorem missing_explanation_placeholder s qcm fragment_source :
  current_qcm s = Some qcm →
  qcm !! k_fragment_source = Some fragment_source →
  (∀ question opts expl correct,
     qcm !! k_question = Some question →
     mcq_fields qcm opts expl correct →
     outcome (display_qcm rt inp s)
       = (if form_submit_button inp then inl RerunException else inr tt)
     ∧ (show_correction s = true →
        outcome (display_correction rt s) = inr tt
        ∧ ∀ k value,
            opts !! k = Some value → expl !! k = None →
            st_markdown
              (correction_html rt
                 (grade_option (JStr <$> sorted_strs correct) (user_selection s) k)
                 k value (JStr placeholder))
            ∈ trace (display_correction rt s)))
  ∧ (qcm !! k_question = None →
     outcome (display_qcm rt inp s) = inl (KeyError k_question)).
Proof.
  intros Hqcm Hfragment. split.
  - intros question opts expl correct Hquestion Hfields. split.
    + by destruct (display_qcm_typed rt inp s qcm opts expl correct
                     fragment_source question).
    + intros Hshow.
      rewrite (display_correction_typed rt s qcm opts expl correct) by done.
      split; [done|]. intros k value Hvalue Hnone.
      unfold trace. cbn [snd]. apply elem_of_app. right.
      apply list_elem_of_fmap. exists k. split.
      * unfold correction_event. by rewrite Hvalue, Hnone.
      * apply elem_of_option_keys. by eexists.
  - by apply (display_qcm_missing_question s qcm fragment_source).
Qed.
End MissingFields.

(** ** The statements at work on sample data *)

Import Samples.

Ltac by_computation := refine (bool_decide_unpack _ _); vm_compute; exact I.

(** C6 fails as stated: loading a blank text while a question is displayed
    leaves that question in [current_qcm]. *)
Lemma blank_course_keeps_question :
  strip (u "  ") = []
  ∧ current_qcm (final_state (load_course (u "  ") state_with_question))
    = Some sample_qcm.
Proof. split; reflexivity. Qed.

(** C7 fails as stated: a question without its [question] field makes the
    display raise [KeyError]. *)
Lemma question_field_missing_raises :
  qcm_without_question !! k_question = None
  ∧ qcm_without_question !! k_options = Some (JObj sample_options)
  ∧ outcome (display_qcm sample_runtime idle_inputs state_without_question_field)
    = inl (KeyError k_question).
Proof. split; [|split]; vm_compute; reflexivity. Qed.


Lemma fragment_window_witness :
  select_lines [u "un"; u "deux"] (choose_start_index 2 (fun a _ => a))
  = [u "un"; u "deux"].
Proof.
  destruct (fragment_window [u "un"; u "deux"] (fun a _ => a))
    as (_ & _ & _ & Hsmall & _).
  - intros a b Hab. lia.
  - apply Hsmall. simpl. lia.
Defined.

Lemma malformed_response_reported_witness :
  generate_qcm_with_gemini sample_runtime (u "ligne") (sample_model (u "oups"))
    initial_state
  = (inr None, initial_state,
     [gemini_call (build_prompt (u "ligne")) temperature;
      st_error (json_error_message sample_runtime (u "oups")
                  (JSONDecodeError (u "Expecting value: line 1 column 1 (char 0)")))]).
Proof.
  apply (malformed_response_reported sample_runtime (u "ligne") (sample_model (u "oups"))
           {| text := inr (u "oups") |}); reflexivity.
Defined.

Lemma fenced_response_parsed_witness :
  generate_qcm_with_gemini sample_runtime (u "ligne") (sample_model fenced_reply)
    initial_state
  = (inr (Some (<[k_fragment_source := JStr (u "ligne")]> ∅)), initial_state,
     [gemini_call (build_prompt (u "ligne")) temperature]).
Proof.
  apply (fenced_response_parsed sample_runtime (u "ligne") (sample_model fenced_reply)
           {| text := inr fenced_reply |} fenced_reply (newline ++ u "{}" ++ newline));
    reflexivity.
Defined.


Lemma load_course_blank_witness :
  course_lines (final_state (load_course (u "  ") state_with_question)) = []
  ∧ trace (load_course (u "  ") state_with_question)
    = [st_warning (u "Veuillez fournir du texte pour l'analyse.")].
Proof.
  rewrite (load_course_blank (u "  ") state_with_question) by reflexivity.
  split; reflexivity.
Defined.

Lemma new_question_resets_answers_witness :
  form_submit_button submit_inputs = true
  ∧ outcome (script sample_runtime submit_inputs state_before_submit)
    = inl RerunException.
Proof.
  destruct (new_question_resets_answers sample_runtime submit_inputs) as [_ Hsubmit].
  destruct (Hsubmit state_before_submit) as (Hbutton & Hrerun & _).
  - reflexivity.
  - vm_compute. reflexivity.
  - split; [exact Hbutton|exact Hrerun].
Defined.

Lemma sample_mcq_fields :
  mcq_fields sample_qcm sample_options sample_explanations [u "C"; u "A"].
Proof. repeat split; vm_compute; reflexivity. Qed.

Lemma grading_partition_witness :
  grade_option (JStr <$> sorted_strs [u "C"; u "A"]) [u "A"] (u "A") = Some CorrectChosen
  ∧ grade_option (JStr <$> sorted_strs [u "C"; u "A"]) [u "A"] (u "B")
    = Some IncorrectAvoided
  ∧ grade_option (JStr <$> sorted_strs [u "C"; u "A"]) [u "A"] (u "C")
    = Some CorrectMissed
  ∧ option_keys sample_options = [u "A"; u "B"; u "C"]
  ∧ correction_event sample_runtime sample_options sample_explanations
      (JStr <$> sorted_strs [u "C"; u "A"]) [u "A"] (u "C")
    = st_markdown
        (u "<div style='background-color: rgba(220, 53, 69, 0.2); padding: 10px; border-radius: 5px; margin-bottom: 10px;'>❌ **Option C (Correcte (Manquée))**: trois<br>**Explication :** Pas d'explication fournie.</div>").
Proof.
  destruct (grading_partition sample_runtime state_with_question sample_qcm
              sample_options sample_explanations [u "C"; u "A"]
              eq_refl eq_refl sample_mcq_fields)
    as (_ & _ & _ & Htable & _ & _ & Hblock).
  assert (Hmissed : grade_option (JStr <$> sorted_strs [u "C"; u "A"]) [u "A"] (u "C")
                    = Some CorrectMissed).
  { apply (Htable (u "C")). split; by_computation. }
  split; [|split; [|split; [|split]]].
  - apply (Htable (u "A")). split; by_computation.
  - apply (Htable (u "B")). split; by_computation.
  - exact Hmissed.
  - vm_compute. reflexivity.
  - assert (Hvalue : sample_options !! u "C" = Some (JStr (u "trois")))
      by (vm_compute; reflexivity).
    destruct (Hblock (u "C") (JStr (u "trois")) Hvalue) as [Hshown _].
    etransitivity; [exact (Hshown CorrectMissed Hmissed)|].
    vm_compute. reflexivity.
Defined.

Lemma grading_total_witness :
  outcome (display_correction sample_runtime state_with_question) = inr tt
  ∧ final_state (display_correction sample_runtime state_with_question)
    = state_with_question.
Proof.
  destruct (grading_total sample_runtime state_with_question sample_qcm
              sample_options sample_explanations [u "C"; u "A"]
              eq_refl eq_refl sample_mcq_fields)
    as (Houtcome & Hstate & _).
  split; [exact Houtcome|exact Hstate].
Defined.

Lemma missing_explanation_placeholder_witness :
  outcome (display_qcm sample_runtime idle_inputs state_with_question) = inr tt
  ∧ st_markdown
      (correction_html sample_runtime (Some IncorrectAvoided) (u "B") (JStr (u "deux"))
         (JStr placeholder))
    ∈ trace (display_correction sample_runtime state_with_question).
Proof.
  destruct (missing_explanation_placeholder sample_runtime idle_inputs
              state_with_question sample_qcm (JStr (u "ligne")) eq_refl eq_refl)
    as [Hfields _].
  destruct (Hfields (JStr (u "Combien ?")) sample_options sample_explanations
              [u "C"; u "A"] eq_refl sample_mcq_fields) as [Hform Hcorrection].
  split; [exact Hform|].
  destruct (Hcorrection eq_refl) as [_ Hblock].
  apply (Hblock (u "B") (JStr (u "deux"))); reflexivity.
Defined.


(** * Further properties of the script *)

(** ** Runs, in general *)

Lemma outcome_bind {A B} (m : M A) (k : A → M B) s :
  outcome (bind m k s) =
    match outcome (m s) with
    | inl e => inl e
    | inr a => outcome (k a (final_state (m s)))
    end.
Proof.
  unfold bind, outcome, final_state.
  destruct (m s) as [[[e|a] s1] t1]; simpl; [done|]. by destruct (k a s1) as [[r s2] t2].
Qed.

Lemma final_state_bind {A B} (m : M A) (k : A → M B) s :
  final_state (bind m k s) =
    match outcome (m s) with
    | inl e => final_state (m s)
    | inr a => final_state (k a (final_state (m s)))
    end.
Proof.
  unfold bind, outcome, final_state.
  destruct (m s) as [[[e|a] s1] t1]; simpl; [done|]. by destruct (k a s1) as [[r s2] t2].
Qed.

Lemma trace_bind {A B} (m : M A) (k : A → M B) s :
  trace (bind m k s) =
    trace (m s) ++
    match outcome (m s) with
    | inl e => []
    | inr a => trace (k a (final_state (m s)))
    end.
Proof.
  unfold bind, outcome, final_state, trace.
  destruct (m s) as [[[e|a] s1] t1]; simpl; [by rewrite app_nil_r|].
  by destruct (k a s1) as [[r s2] t2].
Qed.

(** ** The generation function, further *)

Section GenerationFurther.
Context (rt : runtime).

(** Every way out of [generate_qcm_with_gemini]. *)
Lemma generate_cases fragment gemini_model s :
  let call := gemini_call (build_prompt fragment) temperature in
  (∃ qcm_data,
     generate_qcm_with_gemini rt fragment gemini_model s
       = (inr (Some (<[k_fragment_source := JStr fragment]> qcm_data)), s, [call]))
  ∨ (∃ msg,
       generate_qcm_with_gemini rt fragment gemini_model s
         = (inr None, s, [call; st_error msg]))
  ∨ (∃ e,
       generate_qcm_with_gemini rt fragment gemini_model s = (inl e, s, [call])).
Proof.
  intros call. unfold generate_qcm_with_gemini. rewrite bind_emit. fold call.
  assert (Hhandle : ∀ resp e,
    (∃ msg, handle_generation_error rt resp e s = (inr None, s, [st_error msg]))
    ∨ (∃ e', handle_generation_error rt resp e s = (inl e', s, []))).
  { intros resp e. unfold handle_generation_error.
    destruct (is_JSONDecodeError e).
    - destruct resp as [r|]; [|right; by eexists].
      destruct (text r) as [e'|response_text]; [right; by eexists|].
      left. by eexists.
    - destruct (is_Exception e); [left|right]; by eexists. }
  destruct (generate_content gemini_model (build_prompt fragment) temperature)
    as [e|resp].
  - destruct (Hhandle None e) as [[msg ->]|[e' ->]]; [right; left|right; right];
      by eexists.
  - unfold parse_response. destruct (text resp) as [e|response_text] eqn:Htext.
    { destruct (Hhandle (Some resp) e) as [[msg ->]|[e' ->]];
        [right; left|right; right]; by eexists. }
    destruct (json_loads rt (strip_code_fence response_text)) as [e|qcm_data].
    { destruct (Hhandle (Some resp) e) as [[msg ->]|[e' ->]];
        [right; left|right; right]; by eexists. }
    destruct (setitem qcm_data k_fragment_source (JStr fragment)) as [e|q] eqn:Hset.
    { destruct (Hhandle (Some resp) e) as [[msg ->]|[e' ->]];
        [right; left|right; right]; by eexists. }
    left. destruct qcm_data as [| | | | | |d]; simpl in Hset; try discriminate.
    injection Hset as <-. by exists d.
Qed.

(** X1. Whatever the model does, [generate_qcm_with_gemini] calls it once
    and leaves the session state alone; it returns a question exactly when
    nothing else is displayed, and that question carries the fragment under
    [fragment_source]; it returns [None] exactly when one error is displayed;
    and when it raises nothing is displayed. *)
Theorem generation_outcomes fragment gemini_model s :
  let run := generate_qcm_with_gemini rt fragment gemini_model s in
  let call := gemini_call (build_prompt fragment) temperature in
  final_state run = s
  ∧ model_calls (trace run) = 1%nat
  ∧ match outcome run with
    | inr (Some qcm) =>
        qcm !! k_fragment_source = Some (JStr fragment) ∧ trace run = [call]
    | inr None => ∃ msg, trace run = [call; st_error msg]
    | inl e => trace run = [call]
    end.
Proof.
  intros run call. subst run.
  destruct (generate_cases fragment gemini_model s)
    as [[qcm_data ->]|[[msg ->]|[e ->]]];
    cbv beta iota zeta delta [outcome final_state trace fst snd model_calls
                              List.filter is_model_call length].
  - split; [reflexivity|]. split; [reflexivity|].
    split; [apply lookup_insert_eq|reflexivity].
  - split; [reflexivity|]. split; [reflexivity|]. by exists msg.
  - split; [reflexivity|]. split; reflexivity.
Qed.
End GenerationFurther.

(** [repr] of a key made of plain characters. *)
Lemma py_repr_plain rt (key : str) :
  Forall plain_char key → py_repr rt key = u "'" ++ key ++ u "'".
Proof.
  intros Hplain. unfold py_repr.
  assert (Hsingle : existsb (N.eqb single_quote) key = false).
  { induction Hplain as [|c key (_ & Hc & _) _ IH]; [done|].
    cbn [existsb]. rewrite IH.
    assert ((single_quote =? c)%N = false) as -> by (apply N.eqb_neq; congruence).
    done. }
  rewrite Hsingle. clear Hsingle. cbn [andb].
  assert (Hchars : flat_map (repr_char rt single_quote) key = key).
  { induction Hplain as [|c key (Hrange & Hquote & Hbackslash) _ IH]; [done|].
    cbn [flat_map]. rewrite IH. unfold repr_char.
    apply N.eqb_neq in Hquote as ->. apply N.eqb_neq in Hbackslash as ->.
    cbn [orb].
    assert (Hne : ∀ n : N, (n < 32)%N → (c =? n)%N = false)
      by (intros n Hn; apply N.eqb_neq; lia).
    rewrite !Hne by lia.
    assert ((c <? 32)%N = false) as -> by (apply N.ltb_ge; lia).
    assert ((c =? 127)%N = false) as -> by (apply N.eqb_neq; lia).
    assert ((c <? 127)%N = true) as -> by (apply N.ltb_lt; lia).
    reflexivity. }
  by rewrite Hchars.
Qed.

Section HandlerFurther.
Context (rt : runtime).

(** The handler on a non-empty pool, from the run of the generation. *)
Lemma request_new_question_run inp gemini_model s :
  course_lines s ≠ [] →
  let reset := {| course_lines := course_lines s; current_qcm := current_qcm s;
                  show_correction := false; user_selection := [] |} in
  let run := generate_qcm_with_gemini rt
               (select_fragment (course_lines s) (randint inp)) gemini_model reset in
  request_new_question rt inp gemini_model s =
    match outcome run with
    | inr qcm =>
        (inr tt,
         {| course_lines := course_lines s; current_qcm := qcm;
            show_correction := false; user_selection := [] |}, trace run)
    | inl e => (inl e, reset, trace run)
    end.
Proof.
  intros Hlines reset run. rewrite request_new_question_from_reset. fold reset.
  unfold produce_question. rewrite bind_get.
  change (course_lines reset) with (course_lines s).
  destruct (course_lines s) as [|line lines] eqn:Hcl; [done|].
  change (Z.of_nat (length (line :: lines)) =? 0) with false. cbv iota.
  subst run. unfold bind.
  pose proof (reads_only_generate rt
                (select_fragment (line :: lines) (randint inp)) gemini_model reset)
    as Hstate.
  unfold final_state, outcome, trace in *.
  destruct (generate_qcm_with_gemini rt _ gemini_model reset) as [[[e|qcm] s1] t1];
    simpl in *; subst s1; [reflexivity|].
  by rewrite app_nil_r.
Qed.

(** X2. When the call of the model raises an exception, or the reading,
    decoding or tagging of its response raises one, and that exception is not
    a JSON decoding error, the function displays the generation error with
    the text of the exception, [str(e)], and returns [None].  That text is
    the message of a [TypeError], an [AttributeError] or another library
    error, and for a [KeyError] the repr of its key, which is the key between
    single quotes when the key is made of printable ASCII characters other
    than the single quote and the backslash. *)
Theorem model_failure_reported fragment gemini_model e s :
  is_Exception e = true →
  is_JSONDecodeError e = false →
  generate_content gemini_model (build_prompt fragment) temperature = inl e
  ∨ (∃ resp,
       generate_content gemini_model (build_prompt fragment) temperature = inr resp
       ∧ parse_response rt fragment resp = inl e) →
  generate_qcm_with_gemini rt fragment gemini_model s =
    (inr None, s,
     [gemini_call (build_prompt fragment) temperature;
      st_error (u "Erreur lors de la génération du QCM avec l'API Google Gemini : "
                  ++ exn_str rt e)])
  ∧ match e with
    | TypeError msg | AttributeError msg | LibraryError msg => exn_str rt e = msg
    | KeyError key =>
        Forall plain_char key → exn_str rt e = u "'" ++ key ++ u "'"
    | _ => True
    end.
Proof.
  intros Hexception Hdecode Hraise. split.
  - assert (Hhandle : ∀ resp,
      handle_generation_error rt resp e s =
        (inr None, s, [st_error (generation_error_message rt e)])).
    { intros resp. unfold handle_generation_error. by rewrite Hdecode, Hexception. }
    unfold generate_qcm_with_gemini. rewrite bind_emit.
    destruct Hraise as [->|(resp & -> & ->)]; by rewrite Hhandle.
  - destruct e; try done. apply py_repr_plain.
Qed.

(** X3. When the call of the model itself raises a JSON decoding error, the
    first [except] clause runs with [response] unassigned: building its
    message raises [UnboundLocalError], which leaves the function; no error
    is displayed.  The handler of the button then ends on that exception
    with the answers reset and [current_qcm] as it was. *)
Theorem decode_error_from_call_escapes fragment gemini_model msg s :
  generate_content gemini_model (build_prompt fragment) temperature
    = inl (JSONDecodeError msg) →
  generate_qcm_with_gemini rt fragment gemini_model s =
    (inl (UnboundLocalError (u "response")), s,
     [gemini_call (build_prompt fragment) temperature])
  ∧ ∀ inp,
      course_lines s ≠ [] →
      select_fragment (course_lines s) (randint inp) = fragment →
      request_new_question rt inp gemini_model s =
        (inl (UnboundLocalError (u "response")),
         {| course_lines := course_lines s; current_qcm := current_qcm s;
            show_correction := false; user_selection := [] |},
         [gemini_call (build_prompt fragment) temperature]).
Proof.
  intros Hcall.
  assert (Hgen : ∀ s0,
    generate_qcm_with_gemini rt fragment gemini_model s0 =
      (inl (UnboundLocalError (u "response")), s0,
       [gemini_call (build_prompt fragment) temperature])).
  { intros s0. unfold generate_qcm_with_gemini. rewrite bind_emit. by rewrite Hcall. }
  split; [apply Hgen|].
  intros inp Hlines Hfragment.
  rewrite request_new_question_run by done. by rewrite Hfragment, Hgen.
Qed.

End HandlerFurther.

Lemma model_failure_reported_witness :
  generate_qcm_with_gemini sample_runtime (u "ligne")
    (failing_model (KeyError (u "l'option"))) initial_state
  = (inr None, initial_state,
     [gemini_call (build_prompt (u "ligne")) temperature;
      st_error (u "Erreur lors de la génération du QCM avec l'API Google Gemini : "
                  ++ dquote ++ u "l'option" ++ dquote)]).
Proof.
  destruct (model_failure_reported sample_runtime (u "ligne")
              (failing_model (KeyError (u "l'option"))) (KeyError (u "l'option"))
              initial_state) as [Hrun _];
    [reflexivity|reflexivity|left; reflexivity|].
  etransitivity; [exact Hrun|]. vm_compute. reflexivity.
Defined.

Lemma decode_error_from_call_escapes_witness :
  outcome (generate_qcm_with_gemini sample_runtime (u "ligne")
             (failing_model (JSONDecodeError (u "Expecting value"))) initial_state)
  = inl (UnboundLocalError (u "response")).
Proof.
  destruct (decode_error_from_call_escapes sample_runtime (u "ligne")
              (failing_model (JSONDecodeError (u "Expecting value")))
              (u "Expecting value") initial_state eq_refl) as [-> _].
  reflexivity.
Defined.

(** ** The code fence, further *)

Lemma lstrip_head (s : str) (c : N) (s' : str) : lstrip s = c :: s' → isspace c = false.
Proof.
  induction s as [|x s IH]; simpl; [done|].
  destruct (isspace x) eqn:Hx; [exact IH|]. by intros [= <- _].
Qed.

Lemma lstrip_cons_nonspace (c : N) (s : str) :
  isspace c = false → lstrip (c :: s) = c :: s.
Proof. intros H. simpl. by rewrite H. Qed.

Lemma rstrip_cons_nonspace (c : N) (s : str) :
  isspace c = false → rstrip (c :: s) = c :: rstrip s.
Proof.
  intros H. unfold rstrip. change (rev (c :: s)) with (rev s ++ [c]).
  rewrite (lstrip_app_keep (rev s) [c]) by (by apply lstrip_cons_nonspace).
  by rewrite rev_app_distr.
Qed.

Lemma rstrip_idemp s : rstrip (rstrip s) = rstrip s.
Proof. unfold rstrip. by rewrite rev_involutive, lstrip_idemp. Qed.

Lemma strip_idemp s : strip (strip s) = strip s.
Proof.
  unfold strip at 1.
  assert (Hl : lstrip (strip s) = strip s).
  { unfold strip. destruct (lstrip s) as [|c s'] eqn:Hs; [done|].
    pose proof (lstrip_head _ _ _ Hs) as Hc.
    rewrite rstrip_cons_nonspace by done. by apply lstrip_cons_nonspace. }
  rewrite Hl. unfold strip. apply rstrip_idemp.
Qed.

Lemma startswith_app_both p s q : startswith (p ++ s) (p ++ q) = startswith s q.
Proof. induction p as [|c p IH]; simpl; [done|]. by rewrite N.eqb_refl. Qed.

Lemma strip_fence_app s : strip (fence ++ s) = fence ++ rstrip s.
Proof.
  unfold strip.
  change (lstrip (fence ++ s)) with (fence ++ s).
  unfold rstrip. rewrite rev_app_distr.
  rewrite (lstrip_app_keep (rev s) (rev fence)) by reflexivity.
  by rewrite rev_app_distr, rev_involutive.
Qed.

(** X4. A response wrapped in a plain fence, [```] without [json], is not
    recognised at its opening: only the closing marker is removed, and the
    text handed to [json.loads] still begins with [```]. *)
Theorem plain_fence_opener_kept response_text body :
  strip response_text = fence ++ body ++ fence →
  startswith (body ++ fence) (u "json") = false →
  strip_code_fence response_text = fence ++ rstrip body
  ∧ startswith (strip_code_fence response_text) fence = true.
Proof.
  intros Htext Hjson.
  assert (Heq : strip_code_fence response_text = fence ++ rstrip body).
  { unfold strip_code_fence. rewrite Htext.
    change fence_json with (fence ++ u "json").
    rewrite startswith_app_both, Hjson.
    rewrite (app_assoc fence body fence), endswith_app, slice_to_minus_app.
    apply strip_fence_app. }
  split; [exact Heq|]. rewrite Heq. apply startswith_app.
Qed.

Lemma plain_fence_opener_kept_witness :
  strip_code_fence (u "```
{}
```") = u "```
{}".
Proof.
  destruct (plain_fence_opener_kept (u "```
{}
```") (newline ++ u "{}" ++ newline)) as [-> _]; reflexivity.
Defined.

(** X5. The two markers are removed independently: an opening [```json]
    that is never closed is removed, and so is a closing [```] that was never
    opened; in both cases the trimmed body is handed to [json.loads]. *)
Theorem unbalanced_fence_removed response_text body :
  (strip response_text = fence_json ++ body →
   endswith (strip body) fence = false →
   strip_code_fence response_text = strip body)
  ∧ (strip response_text = body ++ fence →
     startswith (body ++ fence) fence_json = false →
     strip_code_fence response_text = strip body).
Proof.
  split.
  - intros Htext Hclose. unfold strip_code_fence. rewrite Htext.
    rewrite <- (app_nil_r (fence_json ++ body)), <- app_assoc at 1.
    rewrite startswith_app, slice_from_app. by rewrite Hclose.
  - intros Htext Hopen. unfold strip_code_fence. rewrite Htext, Hopen.
    by rewrite endswith_app, slice_to_minus_app.
Qed.

Lemma unbalanced_fence_removed_witness :
  strip_code_fence (u "```json
{}") = u "{}"
  ∧ strip_code_fence (u "{}
```") = u "{}".
Proof.
  split.
  - destruct (unbalanced_fence_removed (u "```json
{}") (newline ++ u "{}")) as [Hopen _].
    rewrite Hopen; reflexivity.
  - destruct (unbalanced_fence_removed (u "{}
```") (u "{}" ++ newline)) as [_ Hclose].
    rewrite Hclose; reflexivity.
Defined.

(** X6. The text handed to [json.loads] never has white space at either
    end, and when the trimmed response neither begins with [```json] nor ends
    with [```] it is the trimmed response itself. *)
Theorem decoder_input_trimmed response_text :
  strip (strip_code_fence response_text) = strip_code_fence response_text
  ∧ (startswith (strip response_text) fence_json = false →
     endswith (strip response_text) fence = false →
     strip_code_fence response_text = strip response_text).
Proof.
  split.
  - unfold strip_code_fence.
    destruct (startswith (strip response_text) fence_json);
      match goal with |- context [endswith ?x fence] =>
        destruct (endswith x fence) end; apply strip_idemp.
  - intros Hopen Hclose. unfold strip_code_fence. by rewrite Hopen, Hclose.
Qed.

Lemma decoder_input_trimmed_witness :
  strip_code_fence (u "  {}  ") = u "{}".
Proof.
  destruct (decoder_input_trimmed (u "  {}  ")) as [_ ->]; reflexivity.
Defined.


(** ** Loading a course, further *)

Lemma lstrip_all_space (s : str) : Forall (λ c, isspace c = true) s → lstrip s = [].
Proof. induction 1 as [|c s Hc _ IH]; simpl; [done|]. by rewrite Hc. Qed.

Lemma elem_of_lstrip (s : str) (c : N) : c ∈ s → isspace c = false → c ∈ lstrip s.
Proof.
  intros Hin Hc. induction s as [|x s IH]; simpl; [done|].
  destruct (isspace x) eqn:Hx; [|done].
  apply elem_of_cons in Hin as [->|Hin]; [congruence|by apply IH].
Qed.

Lemma elem_of_strip (s : str) (c : N) : c ∈ s → isspace c = false → c ∈ strip s.
Proof.
  intros Hin Hc. unfold strip, rstrip.
  rewrite list_elem_of_In, <- in_rev, <- list_elem_of_In.
  apply elem_of_lstrip; [|done].
  rewrite list_elem_of_In, <- in_rev, <- list_elem_of_In. by apply elem_of_lstrip.
Qed.

(** A text is blank exactly when all its characters are white space. *)
Lemma strip_nil_iff (s : str) : strip s = [] ↔ Forall (λ c, isspace c = true) s.
Proof.
  split.
  - intros Hnil. apply Forall_forall. intros c Hin.
    destruct (isspace c) eqn:Hc; [done|].
    pose proof (elem_of_strip s c Hin Hc) as Hstrip. rewrite Hnil in Hstrip.
    by apply elem_of_nil in Hstrip.
  - intros Hall. unfold strip. by rewrite (lstrip_all_space s Hall).
Qed.

Lemma linebreak_is_space (c : N) : islinebreak c = true → isspace c = true.
Proof.
  unfold islinebreak, isspace.
  rewrite !orb_true_iff, !andb_true_iff, !N.leb_le, !N.eqb_eq. lia.
Qed.

Lemma concat_splitlines_from_below n : ∀ (s cur : str),
  (length s < n)%nat →
  concat (splitlines_from cur s)
    = cur ++ List.filter (fun c => negb (islinebreak c)) s.
Proof.
  induction n as [|n IH]; intros s cur Hlen; [lia|].
  destruct s as [|c s].
  - destruct cur; simpl; by rewrite ?app_nil_r.
  - cbn [splitlines_from List.filter]. cbn [length] in Hlen.
    destruct (islinebreak c) eqn:Hc; cbn [negb].
    + destruct s as [|c' s'].
      * cbn. by rewrite !app_nil_r.
      * assert (Hrest : concat (splitlines_from [] (c' :: s'))
                        = List.filter (fun c => negb (islinebreak c)) (c' :: s')).
        { rewrite IH by lia. done. }
        destruct ((c =? 13)%N && (c' =? 10)%N) eqn:Hcrlf.
        -- apply andb_true_iff in Hcrlf as [_ Hlf%N.eqb_eq]. subst c'.
           cbn [concat]. rewrite IH by (cbn [length] in *; lia). done.
        -- cbn [concat]. by rewrite Hrest.
    + rewrite IH by lia. by rewrite <- app_assoc.
Qed.

(** The lines of a text hold all its characters but the line boundaries. *)
Lemma concat_splitlines (s : str) :
  concat (splitlines s) = List.filter (fun c => negb (islinebreak c)) s.
Proof. apply (concat_splitlines_from_below (S (length s))). lia. Qed.

(** A text that is not blank has a line that is not blank: line 126 is
    never reached. *)
Lemma kept_lines_nonempty (course_text : str) :
  strip course_text ≠ [] → kept_lines course_text ≠ [].
Proof.
  intros Hstrip.
  assert (∃ c, c ∈ course_text ∧ isspace c = false) as (c & Hin & Hc).
  { destruct (decide (Forall (λ c, isspace c = true) course_text)) as [Hall|Hnot].
    - exfalso. apply Hstrip. by apply strip_nil_iff.
    - apply not_Forall_Exists in Hnot; [|apply _].
      apply Exists_exists in Hnot as (c & Hin & Hc). exists c. split; [done|].
      by apply not_true_is_false. }
  assert (c ∈ concat (splitlines course_text)) as Hconcat.
  { rewrite concat_splitlines, list_elem_of_In, filter_In, <- list_elem_of_In.
    split; [done|]. destruct (islinebreak c) eqn:Hlb; [|done].
    apply linebreak_is_space in Hlb. congruence. }
  apply list_elem_of_In, in_concat in Hconcat as (line & Hline & Hcline).
  apply list_elem_of_In in Hline. apply list_elem_of_In in Hcline.
  assert (line ∈ kept_lines course_text) as Hkept.
  { unfold kept_lines. rewrite list_elem_of_In, filter_In, <- list_elem_of_In.
    split; [done|]. pose proof (elem_of_strip line c Hcline Hc) as Hs.
    destruct (strip line); [by apply elem_of_nil in Hs|done]. }
  intros Hnil. rewrite Hnil in Hkept. by apply elem_of_nil in Hkept.
Qed.

Lemma load_course_nonblank (course_text : str) (s : session_state) :
  strip course_text ≠ [] →
  load_course course_text s =
    (inr tt,
     {| course_lines := kept_lines course_text; current_qcm := None;
        show_correction := false; user_selection := user_selection s |},
     [st_success (decimal (length (kept_lines course_text))
                    ++ u " lignes de cours prêtes à être utilisées !")]).
Proof.
  intros Hstrip. pose proof (kept_lines_nonempty course_text Hstrip) as Hkept.
  unfold load_course. destruct (strip course_text) as [|c rest]; [done|].
  cbn [str_truthy negb]. fold (kept_lines course_text).
  unfold bind, set_course_lines, get. cbn [course_lines].
  by destruct (kept_lines course_text).
Qed.

Lemma load_course_blank_run (course_text : str) (s : session_state) :
  strip course_text = [] →
  load_course course_text s =
    (inr tt,
     {| course_lines := []; current_qcm := current_qcm s;
        show_correction := show_correction s; user_selection := user_selection s |},
     [st_warning (u "Veuillez fournir du texte pour l'analyse.")]).
Proof. intros H. unfold load_course. by rewrite H. Qed.

(** X7. Loading a text that is not blank keeps its non-blank lines, of which
    there is at least one (the error of line 126 is never displayed),
    announces their number, clears the current question and hides the
    correction; the recorded selection stays as it was. *)
Theorem course_loaded (course_text : str) (s : session_state) :
  strip course_text ≠ [] →
  kept_lines course_text ≠ []
  ∧ load_course course_text s =
      (inr tt,
       {| course_lines := kept_lines course_text; current_qcm := None;
          show_correction := false; user_selection := user_selection s |},
       [st_success (decimal (length (kept_lines course_text))
                      ++ u " lignes de cours prêtes à être utilisées !")]).
Proof.
  intros Hstrip. split; [by apply kept_lines_nonempty|by apply load_course_nonblank].
Qed.

Lemma course_loaded_witness :
  course_lines (final_state (load_course (u "un

 deux ") initial_state)) = [u "un"; u " deux "].
Proof.
  destruct (course_loaded (u "un

 deux ") initial_state) as [_ ->]; [discriminate|reflexivity].
Defined.

(** ** Which button changes which field *)

Lemma preserves_bind {A B C} (f : session_state → C) (m : M A) (k : A → M B) :
  preserves f m → (∀ a, preserves f (k a)) → preserves f (bind m k).
Proof.
  intros Hm Hk s. rewrite final_state_bind.
  destruct (outcome (m s)); [apply Hm|]. rewrite Hk. apply Hm.
Qed.

Lemma preserves_reads_only {A C} (f : session_state → C) (m : M A) :
  reads_only m → preserves f m.
Proof. intros Hm s. by rewrite Hm. Qed.

Ltac preserves :=
  repeat match goal with
    | |- ∀ _, _ => intros
    | |- preserves _ (bind _ _) => apply preserves_bind
    | |- preserves _ (ret _) => apply preserves_reads_only, reads_only_ret
    | |- preserves _ (raise _) => apply preserves_reads_only, reads_only_raise
    | |- preserves _ (lift _) => apply preserves_reads_only, reads_only_lift
    | |- preserves _ (emit _) => apply preserves_reads_only, reads_only_emit
    | |- preserves _ get => apply preserves_reads_only, reads_only_get
    | |- preserves _ (generate_qcm_with_gemini _ _ _) =>
        apply preserves_reads_only, reads_only_generate
    | |- preserves _ (form_checkboxes _ _ _ _ _) =>
        apply preserves_reads_only, reads_only_form_checkboxes
    | |- preserves _ (display_correction _) =>
        apply preserves_reads_only, reads_only_display_correction
    | |- preserves _ (configure_model _ _) =>
        apply preserves_reads_only, reads_only_configure_model
    | |- preserves _ (match ?x with _ => _ end) => destruct x
    | |- preserves _ (if ?b then _ else _) => destruct b
    | |- preserves course_lines (set_current_qcm _) => intros ?; reflexivity
    | |- preserves course_lines (set_show_correction _) => intros ?; reflexivity
    | |- preserves course_lines (set_user_selection _) => intros ?; reflexivity
    | |- preserves current_qcm (set_course_lines _) => intros ?; reflexivity
    | |- preserves current_qcm (set_show_correction _) => intros ?; reflexivity
    | |- preserves current_qcm (set_user_selection _) => intros ?; reflexivity
    | |- preserves user_selection (set_course_lines _) => intros ?; reflexivity
    | |- preserves user_selection (set_current_qcm _) => intros ?; reflexivity
    | |- preserves user_selection (set_show_correction _) => intros ?; reflexivity
    end.

Section Frame.
Context (rt : runtime) (inp : inputs).

Lemma preserves_lines_request gemini_model :
  preserves course_lines (request_new_question rt inp gemini_model).
Proof. unfold request_new_question, produce_question. preserves. Qed.

Lemma preserves_lines_main_logic gemini_model :
  preserves course_lines (main_logic rt inp gemini_model).
Proof. unfold main_logic. preserves. apply preserves_lines_request. Qed.

Lemma preserves_lines_display_qcm : preserves course_lines (display_qcm rt inp).
Proof. unfold display_qcm. preserves. Qed.

Lemma preserves_qcm_display_qcm : preserves current_qcm (display_qcm rt inp).
Proof. unfold display_qcm. preserves. Qed.

Lemma preserves_selection_load_course course_text :
  preserves user_selection (load_course course_text).
Proof. unfold load_course. preserves. Qed.

Lemma preserves_selection_sidebar : preserves user_selection (sidebar inp).
Proof.
  unfold sidebar, read_course_text. preserves; apply preserves_selection_load_course.
Qed.

Lemma reads_only_sidebar : analyse_button inp = false → reads_only (sidebar inp).
Proof. intros H. unfold sidebar. rewrite H. apply reads_only_ret. Qed.

Lemma reads_only_main_logic gemini_model :
  generate_button inp = false → reads_only (main_logic rt inp gemini_model).
Proof. intros H. unfold main_logic. rewrite H. reads_only. Qed.

Lemma reads_only_display_qcm :
  form_submit_button inp = false → reads_only (display_qcm rt inp).
Proof.
  intros H. unfold display_qcm. rewrite H. reads_only.
  apply reads_only_form_checkboxes.
Qed.

Lemma script_preserves_lines :
  analyse_button inp = false → preserves course_lines (script rt inp).
Proof.
  intros Hanalyse. unfold script. preserves.
  - by apply preserves_reads_only, reads_only_sidebar.
  - apply preserves_lines_main_logic.
  - apply preserves_lines_display_qcm.
Qed.

Lemma script_preserves_qcm :
  analyse_button inp = false → generate_button inp = false →
  preserves current_qcm (script rt inp).
Proof.
  intros Hanalyse Hgenerate. unfold script. preserves.
  - by apply preserves_reads_only, reads_only_sidebar.
  - by apply preserves_reads_only, reads_only_main_logic.
  - apply preserves_qcm_display_qcm.
Qed.

Lemma script_preserves_selection :
  generate_button inp = false → form_submit_button inp = false →
  preserves user_selection (script rt inp).
Proof.
  intros Hgenerate Hsubmit. unfold script. preserves.
  - apply preserves_selection_sidebar.
  - by apply preserves_reads_only, reads_only_main_logic.
  - by apply preserves_reads_only, reads_only_display_qcm.
Qed.

Lemma script_reads_only :
  analyse_button inp = false → generate_button inp = false →
  form_submit_button inp = false →
  reads_only (script rt inp).
Proof.
  intros Hanalyse Hgenerate Hsubmit. unfold script. reads_only.
  - by apply reads_only_sidebar.
  - apply reads_only_configure_model.
  - by apply reads_only_main_logic.
  - by apply reads_only_display_qcm.
  - apply reads_only_display_correction.
Qed.

(** X8. Each field of the session state changes only through its buttons,
    whether the run returns or raises: without "Analyser le cours" the pool
    of lines stays; without "Analyser" and "Générer" the current question
    stays; without "Générer" and the submission of the form the recorded
    selection stays; and a run in which no button is pressed leaves the whole
    state as it found it. *)
Theorem buttons_change_fields (s : session_state) :
  (analyse_button inp = false →
   course_lines (final_state (script rt inp s)) = course_lines s)
  ∧ (analyse_button inp = false → generate_button inp = false →
     current_qcm (final_state (script rt inp s)) = current_qcm s)
  ∧ (generate_button inp = false → form_submit_button inp = false →
     user_selection (final_state (script rt inp s)) = user_selection s)
  ∧ (analyse_button inp = false → generate_button inp = false →
     form_submit_button inp = false →
     final_state (script rt inp s) = s).
Proof.
  split; [|split; [|split]].
  - intros Hanalyse. by apply script_preserves_lines.
  - intros Hanalyse Hgenerate. by apply script_preserves_qcm.
  - intros Hgenerate Hsubmit. by apply script_preserves_selection.
  - intros Hanalyse Hgenerate Hsubmit. by apply script_reads_only.
Qed.

(** The pool at the end of a run is the pool the sidebar leaves. *)
Lemma script_lines_from_sidebar s :
  course_lines (final_state (script rt inp s))
  = course_lines (final_state (sidebar inp s)).
Proof.
  unfold script. rewrite !final_state_bind_emit, final_state_bind.
  destruct (outcome (sidebar inp s)); [done|].
  set (rest := bind (configure_model rt inp) _).
  assert (Hrest : preserves course_lines rest).
  { subst rest. preserves.
    - apply preserves_lines_main_logic.
    - apply preserves_lines_display_qcm. }
  apply Hrest.
Qed.

Lemma kept_lines_pool course_text : Forall pool_line (kept_lines course_text).
Proof.
  apply Forall_forall. intros line [Hin Htruthy]%list_elem_of_In%filter_In.
  split.
  - intros Hnil. by rewrite Hnil in Htruthy.
  - pose proof (splitlines_no_linebreak course_text) as Hall.
    rewrite Forall_forall in Hall. apply Hall. by apply list_elem_of_In.
Qed.

(** X9. The pool of lines only ever holds lines that are not blank and
    contain no line boundary: a run of the script that starts from such a
    pool ends with such a pool, whatever is loaded, and the pool of a new
    session is empty. *)
Theorem pool_lines_invariant (s : session_state) :
  Forall pool_line (course_lines initial_state)
  ∧ (Forall pool_line (course_lines s) →
     Forall pool_line (course_lines (final_state (script rt inp s)))).
Proof.
  split; [constructor|]. intros Hs.
  rewrite script_lines_from_sidebar. unfold sidebar.
  destruct (analyse_button inp); [|exact Hs].
  rewrite final_state_bind.
  assert (Hread : reads_only (read_course_text inp)).
  { unfold read_course_text. reads_only. }
  destruct (outcome (read_course_text inp s)) as [e|course_text];
    rewrite Hread; [exact Hs|].
  destruct (decide (strip course_text = [])) as [Hblank|Hnonblank].
  - rewrite load_course_blank_run by done. constructor.
  - rewrite load_course_nonblank by done. apply kept_lines_pool.
Qed.
End Frame.

Lemma buttons_change_fields_witness :
  final_state (script sample_runtime idle_inputs state_with_question)
  = state_with_question.
Proof.
  destruct (buttons_change_fields sample_runtime idle_inputs state_with_question)
    as (_ & _ & _ & Hidle).
  apply Hidle; reflexivity.
Defined.

Lemma pool_lines_invariant_witness :
  Forall pool_line
    (course_lines (final_state (script sample_runtime idle_inputs state_with_question))).
Proof.
  apply (pool_lines_invariant sample_runtime idle_inputs state_with_question).
  repeat constructor; discriminate.
Defined.

(** ** The answer form, in general *)

Lemma hoare_bind_value {A B} s (m : M A) (k : A → M B) Q :
  reads_only m →
  (∀ e, outcome (m s) = inl e → Q (inl e) s) →
  (∀ a, outcome (m s) = inr a → hoare (eq s) (k a) Q) →
  hoare (eq s) (bind m k) Q.
Proof.
  intros Hm He Hk s' <-. rewrite outcome_bind, final_state_bind.
  destruct (outcome (m s)) as [e|a] eqn:Ho; rewrite Hm.
  - by apply He.
  - by apply (Hk a eq_refl s).
Qed.

Section FormGeneral.
Context (rt : runtime) (inp : inputs).

(** Whatever the options are, the choices the form returns are the keys
    whose box came back ticked, in the order of display. *)
Lemma form_checkboxes_choices options keys user_choices s choices :
  outcome (form_checkboxes rt inp options keys user_choices s) = inr choices →
  choices = user_choices ++ List.filter (ticked inp s) keys.
Proof.
  revert user_choices. induction keys as [|key keys IH]; intros user_choices.
  - cbn. intros [= <-]. by rewrite app_nil_r.
  - cbn [form_checkboxes List.filter]. rewrite outcome_bind.
    destruct (subscript options key) as [e|value]; [done|].
    cbn [lift ret outcome final_state fst snd].
    rewrite bind_get, outcome_bind_emit. fold (ticked inp s key).
    destruct (ticked inp s key); intros Ho%IH; [|done].
    by rewrite <- app_assoc in Ho.
Qed.

(** How a display of the question may end: with the state as it was, or,
    when the form is submitted and there is a question, with the ticked
    option keys recorded and the correction flag raised. *)
Lemma display_qcm_final s :
  final_state (display_qcm rt inp s) = s
  ∨ (form_submit_button inp = true
     ∧ outcome (display_qcm rt inp s) = inl RerunException
     ∧ ∃ qcm opts,
         qcm_truthy (current_qcm s) = Some qcm
         ∧ qcm !! k_options = Some (JObj opts)
         ∧ final_state (display_qcm rt inp s)
           = submitted s (List.filter (ticked inp s) (option_keys opts))).
Proof.
  destruct (qcm_truthy (current_qcm s)) as [qcm|] eqn:Hq;
    [|left; unfold display_qcm; by rewrite bind_get, Hq].
  set (Q := λ (r : result unit) (s' : session_state),
    s' = s
    ∨ (form_submit_button inp = true ∧ r = inl RerunException
       ∧ ∃ opts, qcm !! k_options = Some (JObj opts)
                 ∧ s' = submitted s (List.filter (ticked inp s) (option_keys opts)))).
  assert (HQ : Q (outcome (display_qcm rt inp s)) (final_state (display_qcm rt inp s))).
  { unfold display_qcm. rewrite bind_get, Hq.
    match goal with |- Q (outcome (?m s)) _ =>
      cut (hoare (eq s) m Q); [intros H; exact (H s eq_refl)|] end.
    apply hoare_bind_value; [apply reads_only_emit|by left|intros _ _].
    apply hoare_bind_value; [apply reads_only_lift|by left|intros fragment_source _].
    apply hoare_bind_value; [apply reads_only_emit|by left|intros _ _].
    apply hoare_bind_value; [apply reads_only_lift|by left|intros question _].
    apply hoare_bind_value; [apply reads_only_emit|by left|intros _ _].
    apply hoare_bind_value; [apply reads_only_lift|by left|intros options Hoptions].
    apply hoare_bind_value; [apply reads_only_lift|by left|intros keys Hkeys].
    apply hoare_bind_value;
      [apply reads_only_form_checkboxes|by left|intros user_choices Hchoices].
    intros s' <-. destruct (form_submit_button inp) eqn:Hsubmit; [|by left].
    right. split; [done|]. split; [done|].
    unfold dict_getitem in Hoptions.
    destruct (qcm !! k_options) as [v|] eqn:Hlookup; [|done].
    injection Hoptions as ->.
    destruct options as [| | | | | |opts]; try done.
    injection Hkeys as <-. exists opts. split; [done|].
    apply form_checkboxes_choices in Hchoices. subst user_choices. reflexivity. }
  destruct HQ as [Hsame|(Hsubmit & Hrerun & opts & Hopts & Hstate)]; [by left|].
  right. split; [done|]. split; [done|]. by exists qcm, opts.
Qed.
End FormGeneral.

(** ** Invariants of the session state *)

Lemma keeps_of_all {A} (I : session_state → Prop) (m : M A) :
  (∀ s, I s → I (final_state (m s))) → keeps I m.
Proof. intros H s Hs. by apply H. Qed.

Section Invariants.
Context (rt : runtime) (inp : inputs).

Lemma sidebar_final s :
  final_state (sidebar inp s) = s
  ∨ (∃ course_text,
       strip course_text = [] ∧
       final_state (sidebar inp s) =
         {| course_lines := []; current_qcm := current_qcm s;
            show_correction := show_correction s;
            user_selection := user_selection s |})
  ∨ (∃ course_text,
       final_state (sidebar inp s) =
         {| course_lines := kept_lines course_text; current_qcm := None;
            show_correction := false; user_selection := user_selection s |}).
Proof.
  unfold sidebar. destruct (analyse_button inp); [|by left].
  rewrite final_state_bind.
  assert (Hread : reads_only (read_course_text inp)).
  { unfold read_course_text. reads_only. }
  destruct (outcome (read_course_text inp s)) as [e|course_text];
    rewrite Hread; [by left|].
  destruct (decide (strip course_text = [])) as [Hblank|Hnonblank].
  - right; left. exists course_text. split; [done|]. rewrite load_course_blank_run by done. by rewrite !Hread.
  - right; right. exists course_text. rewrite load_course_nonblank by done.
    by rewrite !Hread.
Qed.

Lemma produce_question_final gemini_model s :
  final_state (produce_question rt inp gemini_model s) = s
  ∨ final_state (produce_question rt inp gemini_model s)
    = {| course_lines := course_lines s; current_qcm := None;
         show_correction := show_correction s; user_selection := user_selection s |}
  ∨ ∃ qcm_data,
      final_state (produce_question rt inp gemini_model s)
      = {| course_lines := course_lines s;
           current_qcm :=
             Some (<[k_fragment_source :=
                       JStr (select_fragment (course_lines s) (randint inp))]> qcm_data);
           show_correction := show_correction s; user_selection := user_selection s |}.
Proof.
  unfold produce_question. rewrite bind_get.
  destruct (Z.of_nat (length (course_lines s)) =? 0); [right; left; reflexivity|].
  rewrite final_state_bind.
  destruct (generate_cases rt (select_fragment (course_lines s) (randint inp))
              gemini_model s) as [[qcm_data ->]|[[msg ->]|[e ->]]].
  - right; right. by exists qcm_data.
  - right; left. reflexivity.
  - by left.
Qed.

Lemma main_logic_final gemini_model s :
  final_state (main_logic rt inp gemini_model s) = s
  ∨ (generate_button inp = true
     ∧ answers_reset (final_state (main_logic rt inp gemini_model s))
     ∧ (question_tagged s →
        question_tagged (final_state (main_logic rt inp gemini_model s)))).
Proof.
  unfold main_logic. rewrite bind_get.
  destruct gemini_model as [m|].
  2: { left. by destruct (list_truthy (course_lines s) && negb (str_truthy (api_key inp))). }
  destruct (list_truthy (course_lines s)); [|by left].
  destruct (generate_button inp); [|by left].
  right. split; [done|]. split; [apply request_new_question_resets|].
  intros Htagged. rewrite request_new_question_from_reset.
  set (reset := {| course_lines := course_lines s; current_qcm := current_qcm s;
                   show_correction := false; user_selection := [] |}).
  destruct (produce_question_final m reset) as [->|[->|[qcm_data ->]]].
  - exact Htagged.
  - by intros qcm.
  - intros qcm [= <-]. eexists. apply lookup_insert_eq.
Qed.
Lemma script_keeps (I : session_state → Prop) :
  keeps I (sidebar inp) →
  (∀ gemini_model, keeps I (main_logic rt inp gemini_model)) →
  keeps I (display_qcm rt inp) →
  keeps I (script rt inp).
Proof.
  intros Hsidebar Hmain Hdisplay. unfold script.
  do 2 (apply keeps_bind; [apply keeps_reads_only, reads_only_emit|intros _]).
  apply keeps_bind; [exact Hsidebar|intros _].
  apply keeps_bind; [apply keeps_reads_only, reads_only_configure_model|].
  intros gemini_model.
  apply keeps_bind; [apply Hmain|intros _].
  apply keeps_bind; [exact Hdisplay|intros _].
  apply keeps_reads_only, reads_only_display_correction.
Qed.

(** X10. The current question always carries its fragment: a new session
    has no question, every run of the script keeps the property, and the
    display of a question therefore shows the fragment (line 183 never raises
    [KeyError]). *)
Theorem question_carries_fragment (s : session_state) :
  question_tagged initial_state
  ∧ (question_tagged s → question_tagged (final_state (script rt inp s)))
  ∧ (question_tagged s →
     ∀ qcm, qcm_truthy (current_qcm s) = Some qcm →
       ∃ fragment t,
         qcm !! k_fragment_source = Some (JStr fragment)
         ∧ trace (display_qcm rt inp s)
           = st_markdown (u "---") :: st_info (u "*" ++ fragment ++ u "*") :: t).
Proof.
  split; [by intros qcm|]. split.
  - revert s. apply script_keeps; [|intros gemini_model|]; apply keeps_of_all; intros s Hs.
    + destruct (sidebar_final s) as [->|[(text & _ & ->)|(text & ->)]];
        [done|exact Hs|by intros qcm].
    + destruct (main_logic_final gemini_model s) as [->|(_ & _ & Htagged)];
        [done|by apply Htagged].
    + destruct (display_qcm_final rt inp s)
        as [->|(_ & _ & qcm & opts & _ & _ & ->)]; [done|exact Hs].
  - intros Hs qcm Hq.
    assert (Hcurrent : current_qcm s = Some qcm).
    { unfold qcm_truthy in Hq. destruct (current_qcm s) as [d|]; [|done].
      destruct (size d); [done|]. by injection Hq as ->. }
    destruct (Hs qcm Hcurrent) as [fragment Hfragment].
    exists fragment. eexists. split; [exact Hfragment|].
    unfold display_qcm. rewrite bind_get, Hq, trace_bind_emit.
    unfold dict_getitem. rewrite Hfragment, bind_lift_inr, trace_bind_emit.
    reflexivity.
Qed.

(** X11. The correction flag is never left raised without a question: a
    new session has it down, and every run of the script, whether it returns
    or raises, keeps "the flag is raised only if there is a current
    question". *)
Theorem correction_only_with_question (s : session_state) :
  correction_has_question initial_state
  ∧ (correction_has_question s →
     correction_has_question (final_state (script rt inp s))).
Proof.
  split; [by intros ?|].
  revert s. apply script_keeps; [|intros gemini_model|]; apply keeps_of_all; intros s Hs.
  - destruct (sidebar_final s) as [->|[(text & _ & ->)|(text & ->)]];
      [done|exact Hs|by intros ?].
  - destruct (main_logic_final gemini_model s) as [->|(_ & [Hshow _] & _)];
      [done|]. intros Hshown. congruence.
  - destruct (display_qcm_final rt inp s)
      as [->|(_ & _ & qcm & opts & Hq & _ & ->)]; [done|].
    intros _. cbn [submitted current_qcm]. by rewrite Hq.
Qed.

(** X12. The recorded selection is always sorted and never repeats a key:
    a new session has the empty selection, and every run of the script keeps
    the property.  This is what lets line 212 compare it with the sorted
    correct answers without sorting it again. *)
Theorem selection_kept_sorted (s : session_state) :
  selection_sorted initial_state
  ∧ (selection_sorted s → selection_sorted (final_state (script rt inp s))).
Proof.
  split; [split; constructor|].
  revert s. apply script_keeps; [|intros gemini_model|]; apply keeps_of_all; intros s Hs.
  - destruct (sidebar_final s) as [->|[(text & _ & ->)|(text & ->)]]; done.
  - destruct (main_logic_final gemini_model s) as [->|(_ & [_ Hselection] & _)];
      [done|]. unfold selection_sorted. rewrite Hselection. split; constructor.
  - destruct (display_qcm_final rt inp s)
      as [->|(_ & _ & qcm & opts & _ & _ & ->)]; [done|].
    split; cbn [submitted user_selection].
    + apply sorted_strs_sorted.
    + apply NoDup_sorted_strs, NoDup_bool_filter, NoDup_option_keys.
Qed.
End Invariants.

Lemma question_carries_fragment_witness :
  ∃ t, trace (display_qcm sample_runtime idle_inputs state_with_question)
       = st_markdown (u "---") :: st_info (u "*ligne*") :: t.
Proof.
  destruct (question_carries_fragment sample_runtime idle_inputs state_with_question)
    as (_ & _ & Hdisplay).
  destruct (Hdisplay) with (qcm := sample_qcm) as (fragment & t & Hfragment & Htrace).
  - intros qcm [= <-]. by exists (u "ligne").
  - reflexivity.
  - injection Hfragment as <-. by exists t.
Defined.

Lemma correction_only_with_question_witness :
  correction_has_question
    (final_state (script sample_runtime submit_inputs state_before_submit)).
Proof.
  apply (correction_only_with_question sample_runtime submit_inputs state_before_submit).
  intros H. discriminate.
Defined.

Lemma selection_kept_sorted_witness :
  selection_sorted
    (final_state (script sample_runtime submit_inputs state_before_submit)).
Proof.
  apply (selection_kept_sorted sample_runtime submit_inputs state_before_submit).
  split; constructor.
Defined.

(** ** What a run displays *)

Lemma emits_bind {A B} P (m : M A) (k : A → M B) :
  emits P m → (∀ a, emits P (k a)) → emits P (bind m k).
Proof.
  intros Hm Hk s. rewrite trace_bind. apply Forall_app. split; [apply Hm|].
  destruct (outcome (m s)); [constructor|apply Hk].
Qed.

Lemma emits_silent {A} P (m : M A) : (∀ s, trace (m s) = []) → emits P m.
Proof. intros H s. rewrite H. constructor. Qed.

Lemma emits_emit P ev : P ev → emits P (emit ev).
Proof. intros H s. by repeat constructor. Qed.

Lemma emits_lift {A} P (r : result A) : emits P (lift r).
Proof. apply emits_silent. by destruct r. Qed.

Lemma emits_for_each {A} P (l : list A) (body : A → M unit) :
  (∀ x, emits P (body x)) → emits P (for_each l body).
Proof.
  intros Hbody. induction l as [|x l IH]; simpl; [by apply emits_silent|].
  apply emits_bind; auto.
Qed.

Ltac emits :=
  repeat match goal with
    | |- ∀ _, _ => intros
    | |- emits _ (bind _ _) => apply emits_bind
    | |- emits _ (ret _) => by apply emits_silent
    | |- emits _ (raise _) => by apply emits_silent
    | |- emits _ (lift _) => apply emits_lift
    | |- emits _ get => by apply emits_silent
    | |- emits _ (set_course_lines _) => by apply emits_silent
    | |- emits _ (set_current_qcm _) => by apply emits_silent
    | |- emits _ (set_show_correction _) => by apply emits_silent
    | |- emits _ (set_user_selection _) => by apply emits_silent
    | |- emits _ (for_each _ _) => apply emits_for_each
    | |- emits _ (emit _) => apply emits_emit
    | |- emits _ (match ?x with _ => _ end) => destruct x
    | |- emits _ (if ?b then _ else _) => destruct b
    end.

(** Telling a displayed event from the two messages: by its kind, or by
    the first character of its text. *)
Ltac live :=
  split; intros Hev;
  first [ discriminate Hev
        | injection Hev as Hev; apply (f_equal (take 1)) in Hev;
          vm_compute in Hev; discriminate Hev ].

Lemma model_calls_app t1 t2 :
  model_calls (t1 ++ t2) = (model_calls t1 + model_calls t2)%nat.
Proof. unfold model_calls. by rewrite List.filter_app, length_app. Qed.

Lemma model_calls_quiet t : Forall quiet_event t → model_calls t = 0%nat.
Proof.
  unfold model_calls. induction 1 as [|ev t Hev _ IH]; [done|].
  simpl. unfold quiet_event in Hev. by rewrite Hev.
Qed.

Lemma model_calls_cons_quiet ev t :
  quiet_event ev → model_calls (ev :: t) = model_calls t.
Proof. unfold model_calls, quiet_event. simpl. by intros ->. Qed.

Section Displayed.
Context (rt : runtime) (inp : inputs).

Lemma emits_form_checkboxes P options keys user_choices :
  (∀ label key value, P (st_checkbox label key value)) →
  emits P (form_checkboxes rt inp options keys user_choices).
Proof.
  intros HP. revert user_choices.
  induction keys as [|key keys IH]; intros user_choices; simpl; emits; auto.
Qed.

Lemma emits_display_qcm P :
  (∀ body, P (st_markdown body)) → (∀ body, P (st_info body)) →
  (∀ body, P (st_subheader body)) →
  (∀ label key value, P (st_checkbox label key value)) →
  emits P (display_qcm rt inp).
Proof.
  intros Hmarkdown Hinfo Hsubheader Hcheckbox. unfold display_qcm. emits; auto.
  by apply emits_form_checkboxes.
Qed.

Lemma emits_display_correction P :
  (∀ body, P (st_markdown body)) → (∀ body, P (st_subheader body)) →
  P (banner true) → P (banner false) →
  emits P (display_correction rt).
Proof.
  intros Hmarkdown Hsubheader Htrue Hfalse.
  unfold display_correction, correction_block. emits; auto.
Qed.

Lemma emits_configure_model P :
  (∀ e, P (st_error (u "Erreur de configuration de l'API Google Gemini : "
                       ++ exn_str rt e ++ u ". Vérifiez votre clé API."))) →
  emits P (configure_model rt inp).
Proof. intros HP. unfold configure_model. emits; auto. Qed.

Lemma emits_sidebar P :
  P (st_warning (u "Veuillez fournir du texte pour l'analyse.")) →
  (∀ body, P (st_success body)) →
  emits P (sidebar inp).
Proof.
  intros Hwarning Hsuccess. unfold sidebar.
  destruct (analyse_button inp); [|by apply emits_silent].
  apply emits_bind.
  { unfold read_course_text. emits. }
  intros course_text s.
  destruct (decide (strip course_text = [])) as [Hblank|Hnonblank].
  - rewrite load_course_blank_run by done. by repeat constructor.
  - rewrite load_course_nonblank by done. by repeat constructor.
Qed.
End Displayed.

Section ModelCalls.
Context (rt : runtime) (inp : inputs).

Lemma model_calls_bind {A B} (m : M A) (k : A → M B) s :
  model_calls (trace (bind m k s)) =
    (model_calls (trace (m s)) +
     match outcome (m s) with
     | inl _ => 0
     | inr a => model_calls (trace (k a (final_state (m s))))
     end)%nat.
Proof.
  rewrite trace_bind, model_calls_app. by destruct (outcome (m s)).
Qed.

Lemma model_calls_generate fragment gemini_model s :
  model_calls (trace (generate_qcm_with_gemini rt fragment gemini_model s)) = 1%nat.
Proof.
  destruct (generate_cases rt fragment gemini_model s)
    as [[qcm_data ->]|[[msg ->]|[e ->]]]; reflexivity.
Qed.

Lemma list_truthy_nonempty {A} (l : list A) : list_truthy l = true → l ≠ [].
Proof. by destruct l. Qed.

Lemma trace_request_new_question gemini_model s :
  course_lines s ≠ [] →
  ∃ s0, trace (request_new_question rt inp gemini_model s)
        = trace (generate_qcm_with_gemini rt
                   (select_fragment (course_lines s) (randint inp)) gemini_model s0).
Proof.
  intros Hlines. rewrite request_new_question_run by done.
  eexists. by destruct (outcome _).
Qed.

Lemma model_calls_main_logic gemini_model s :
  model_calls (trace (main_logic rt inp gemini_model s)) =
    match gemini_model with
    | Some _ =>
        if list_truthy (course_lines s) && generate_button inp then 1%nat else 0%nat
    | None => 0%nat
    end.
Proof.
  unfold main_logic. rewrite bind_get. destruct gemini_model as [m|].
  - destruct (list_truthy (course_lines s)) eqn:Hlines; [|done].
    destruct (generate_button inp); [|done].
    destruct (trace_request_new_question m s) as [s0 ->];
      [by apply list_truthy_nonempty|].
    apply model_calls_generate.
  - by destruct (list_truthy (course_lines s) && negb (str_truthy (api_key inp))).
Qed.

Lemma configure_model_some s gemini_model :
  outcome (configure_model rt inp s) = inr (Some gemini_model) →
  str_truthy (api_key inp) = true
  ∧ GenerativeModel rt (api_key inp) (u "gemini-2.5-flash") = inr gemini_model.
Proof.
  unfold configure_model. destruct (str_truthy (api_key inp)); [|done].
  destruct (GenerativeModel rt (api_key inp) (u "gemini-2.5-flash")) as [e|m].
  - by destruct (is_Exception e).
  - by intros [= ->].
Qed.

Lemma quiet_sidebar : emits quiet_event (sidebar inp).
Proof. by apply emits_sidebar. Qed.

Lemma quiet_configure_model : emits quiet_event (configure_model rt inp).
Proof. by apply emits_configure_model. Qed.

Lemma quiet_display_qcm : emits quiet_event (display_qcm rt inp).
Proof. by apply emits_display_qcm. Qed.

Lemma quiet_display_correction : emits quiet_event (display_correction rt).
Proof. by apply emits_display_correction. Qed.

(** X13. A run of the script calls the model at most once, and it calls it
    only when "Générer un nouveau QCM" is pressed, an API key is typed, the
    client is configured without error and the pool of lines is not empty. *)
Theorem model_called_at_most_once (s : session_state) :
  (model_calls (trace (script rt inp s)) ≤ 1)%nat
  ∧ (model_calls (trace (script rt inp s)) = 1%nat →
     generate_button inp = true
     ∧ str_truthy (api_key inp) = true
     ∧ (∃ gemini_model,
          GenerativeModel rt (api_key inp) (u "gemini-2.5-flash") = inr gemini_model)
     ∧ course_lines (final_state (script rt inp s)) ≠ []).
Proof.
  rewrite script_lines_from_sidebar.
  unfold script. rewrite !trace_bind_emit, !model_calls_cons_quiet by done.
  rewrite model_calls_bind.
  rewrite (model_calls_quiet _ (quiet_sidebar s)).
  destruct (outcome (sidebar inp s)) as [e|[]]; [split; [lia|done]|].
  set (s1 := final_state (sidebar inp s)).
  rewrite model_calls_bind.
  rewrite (model_calls_quiet _ (quiet_configure_model s1)).
  rewrite (reads_only_configure_model rt inp s1).
  destruct (outcome (configure_model rt inp s1)) as [e|gemini_model] eqn:Hconfigure;
    [split; [lia|done]|].
  rewrite model_calls_bind, model_calls_main_logic.
  assert (Hrest : match outcome (main_logic rt inp gemini_model s1) with
                  | inl _ => 0%nat
                  | inr a =>
                      model_calls
                        (trace ((display_qcm rt inp;; display_correction rt)
                                  (final_state (main_logic rt inp gemini_model s1))))
                  end = 0%nat).
  { destruct (outcome (main_logic rt inp gemini_model s1)); [done|].
    apply model_calls_quiet. apply emits_bind; [apply quiet_display_qcm|intros _].
    apply quiet_display_correction. }
  rewrite Hrest.
  destruct gemini_model as [m|]; [|split; [lia|done]].
  destruct (list_truthy (course_lines s1)) eqn:Hlines; [|split; [simpl; lia|done]].
  destruct (generate_button inp); [|split; [simpl; lia|done]].
  split; [simpl; lia|]. intros _.
  apply configure_model_some in Hconfigure as [Hkey Hmodel].
  split; [done|]. split; [done|]. split; [by exists m|].
  by apply list_truthy_nonempty.
Qed.
End ModelCalls.

Lemma model_called_at_most_once_witness :
  model_calls (trace (script sample_runtime generate_inputs state_with_question)) = 1%nat
  ∧ generate_button generate_inputs = true.
Proof.
  assert (H : model_calls
                (trace (script sample_runtime generate_inputs state_with_question))
              = 1%nat) by (vm_compute; reflexivity).
  split; [exact H|].
  destruct (model_called_at_most_once sample_runtime generate_inputs
              state_with_question) as [_ Honce].
  by destruct (Honce H) as (Hbutton & _).
Defined.

(** ** Messages that no run displays *)

Section DeadMessages.
Context (rt : runtime) (inp : inputs).

Lemma emits_generate P fragment gemini_model :
  (∀ prompt t, P (gemini_call prompt t)) →
  (∀ response_text e, P (st_error (json_error_message rt response_text e))) →
  (∀ e, P (st_error (generation_error_message rt e))) →
  emits P (generate_qcm_with_gemini rt fragment gemini_model).
Proof.
  intros Hcall Hjson Hother.
  unfold generate_qcm_with_gemini, handle_generation_error. cbv zeta.
  emits; auto.
Qed.

Lemma emits_main_logic P gemini_model :
  (∀ prompt t, P (gemini_call prompt t)) →
  (∀ response_text e, P (st_error (json_error_message rt response_text e))) →
  (∀ e, P (st_error (generation_error_message rt e))) →
  P (st_warning (u "Veuillez saisir votre clé API Google Gemini pour générer les QCM.")) →
  emits P (main_logic rt inp gemini_model).
Proof.
  intros Hcall Hjson Hother Hwarning s.
  unfold main_logic. rewrite bind_get. destruct gemini_model as [m|].
  - destruct (list_truthy (course_lines s)) eqn:Hlines; [|constructor].
    destruct (generate_button inp); [|constructor].
    destruct (trace_request_new_question rt inp m s) as [s0 ->];
      [by apply list_truthy_nonempty|].
    by apply emits_generate.
  - destruct (list_truthy (course_lines s) && negb (str_truthy (api_key inp)));
      [by repeat constructor|constructor].
Qed.

Lemma live_script : emits live_event (script rt inp).
Proof.
  unfold script.
  do 2 (apply emits_bind; [apply emits_emit; live|intros _]).
  apply emits_bind; [apply emits_sidebar; [live|intros; live]|].
  intros _. apply emits_bind; [apply emits_configure_model; intros; live|].
  intros gemini_model.
  apply emits_bind;
    [apply emits_main_logic; [intros; live|intros; live|intros; live|live]|].
  intros _.
  apply emits_bind; [apply emits_display_qcm; intros; live|].
  intros _. apply emits_display_correction; [intros; live|intros; live|live|live].
Qed.

(** X14. Two messages of the script are never displayed, whatever the inputs
    and the session state: the error "Aucune ligne de texte non-vide n'a été
    trouvée." of line 126, because a text that is not blank always has a
    line that is not blank, and the warning "Aucune ligne de cours à
    utiliser." of line 158, because the button that would display it is only
    reached with a pool that is not empty. *)
Theorem dead_messages_never_displayed (s : session_state) :
  (no_line_found ∉ trace (script rt inp s))
  ∧ (no_line_to_use ∉ trace (script rt inp s)).
Proof.
  pose proof (live_script s) as Hlive. rewrite Forall_forall in Hlive.
  split; intros Hin; apply Hlive in Hin; destruct Hin as [H1 H2]; congruence.
Qed.
End DeadMessages.

(** ** The selection and the options *)

Lemma qcm_truthy_some qcm d : qcm_truthy qcm = Some d → qcm = Some d.
Proof.
  unfold qcm_truthy. destruct qcm as [d'|]; [|done].
  destruct (size d'); [done|]. by intros [= ->].
Qed.

Section SelectionOptions.
Context (rt : runtime) (inp : inputs).

(** X15. The recorded selection only ever names options of the current
    question: a new session has the empty selection, and every run of the
    script keeps the property, whether it returns or raises.  A selection
    with a key that is no option is therefore never graded. *)
Theorem selection_names_options (s : session_state) :
  selection_within_options initial_state
  ∧ (selection_within_options s →
     selection_within_options (final_state (script rt inp s))).
Proof.
  split; [by intros qcm opts ?|].
  revert s. apply script_keeps; [|intros gemini_model|]; apply keeps_of_all; intros s Hs.
  - destruct (sidebar_final inp s) as [->|[(text & _ & ->)|(text & ->)]];
      [done|exact Hs|by intros qcm opts ?].
  - destruct (main_logic_final rt inp gemini_model s) as [->|(_ & [_ Hselection] & _)];
      [done|].
    intros qcm opts _ _ key Hkey. rewrite Hselection in Hkey.
    by apply elem_of_nil in Hkey.
  - destruct (display_qcm_final rt inp s)
      as [->|(_ & _ & qcm & opts & Hq & Hopts & ->)]; [done|].
    apply qcm_truthy_some in Hq.
    intros qcm' opts' Hq' Hopts' key Hkey.
    cbn [submitted current_qcm user_selection] in Hq', Hkey.
    rewrite Hq in Hq'. injection Hq' as <-.
    rewrite Hopts in Hopts'. injection Hopts' as <-.
    apply elem_of_sorted_strs, list_elem_of_In, filter_In in Hkey as [Hkey _].
    by apply elem_of_option_keys, list_elem_of_In.
Qed.
End SelectionOptions.

Lemma selection_names_options_witness :
  selection_within_options
    (final_state (script sample_runtime submit_inputs state_before_submit)).
Proof.
  apply (selection_names_options sample_runtime submit_inputs state_before_submit).
  intros qcm opts _ _ key Hkey. by apply elem_of_nil in Hkey.
Defined.

(** ** The banner and the blocks *)

Lemma red_not_green : red ≠ green.
Proof. intros H. vm_compute in H. discriminate. Qed.

Lemma color_missed : color (Some CorrectMissed) = red.
Proof. reflexivity. Qed.

Lemma color_wrong : color (Some IncorrectChosen) = red.
Proof. reflexivity. Qed.

Lemma color_green_iff correct user_answers key :
  color (grade_option (JStr <$> sorted_strs correct) user_answers key) = green
  ↔ (key ∈ correct ↔ key ∈ user_answers).
Proof.
  pose proof (grade_option_table correct user_answers key) as Htable.
  cbv zeta in Htable. destruct Htable as (Hcc & Hcm & Hic & Hia).
  destruct (grade_option (JStr <$> sorted_strs correct) user_answers key)
    as [[]|] eqn:Hv.
  - destruct (proj1 Hcc eq_refl) as [Hc Hu]. split; [done|reflexivity].
  - destruct (proj1 Hcm eq_refl) as [Hc Hu].
    split; [intros Hgreen; rewrite color_missed in Hgreen;
            destruct (red_not_green Hgreen)|].
    intros [Hiff _]. by destruct (Hu (Hiff Hc)).
  - destruct (proj1 Hic eq_refl) as [Hc Hu].
    split; [intros Hgreen; rewrite color_wrong in Hgreen;
            destruct (red_not_green Hgreen)|].
    intros [_ Hiff]. by destruct (Hc (Hiff Hu)).
  - destruct (proj1 Hia eq_refl) as [Hc Hu]. split; [done|reflexivity].
  - exfalso.
    destruct (decide (key ∈ correct)) as [Hc|Hc],
      (decide (key ∈ user_answers)) as [Hu|Hu].
    + by pose proof (proj2 Hcc (conj Hc Hu)).
    + by pose proof (proj2 Hcm (conj Hc Hu)).
    + by pose proof (proj2 Hic (conj Hc Hu)).
    + by pose proof (proj2 Hia (conj Hc Hu)).
Qed.

Lemma fully_correct_iff_all_green (opts : gmap str json) user_answers correct :
  Sorted str_le user_answers → NoDup user_answers →
  (∀ k, k ∈ user_answers → is_Some (opts !! k)) →
  NoDup correct →
  (∀ k, k ∈ correct → is_Some (opts !! k)) →
  is_fully_correct user_answers (JStr <$> sorted_strs correct) = true
  ↔ ∀ key, key ∈ option_keys opts →
      color (grade_option (JStr <$> sorted_strs correct) user_answers key) = green.
Proof.
  intros Hsorted Hnodup Huser Hcorrect Hwithin.
  unfold is_fully_correct. rewrite list_eq_fmap. split.
  - intros Heq key _. apply color_green_iff. rewrite Heq.
    by rewrite elem_of_sorted_strs.
  - intros Hall. apply sorted_strs_unique; [|done].
    apply NoDup_Permutation; [done|done|]. intros k.
    split; intros Hk.
    + apply (color_green_iff correct user_answers k); [|done].
      apply Hall, elem_of_option_keys. by apply Huser.
    + apply (color_green_iff correct user_answers k); [|done].
      apply Hall, elem_of_option_keys. by apply Hwithin.
Qed.

Lemma banner_in_correction_events rt opts expl correct user_answers matches :
  banner true ∈ correction_events rt opts expl correct user_answers matches
  ↔ matches = true.
Proof.
  unfold correction_events. split.
  - intros Hin. apply elem_of_app in Hin as [Hin|Hin].
    + apply elem_of_cons in Hin as [Hin|Hin]; [discriminate Hin|].
      apply elem_of_cons in Hin as [Hin|Hin]; [discriminate Hin|].
      apply elem_of_cons in Hin as [Hin|Hin]; [|by apply elem_of_nil in Hin].
      destruct matches; [done|discriminate Hin].
    + apply list_elem_of_fmap in Hin as (key & Hin & _). discriminate Hin.
  - intros ->. apply elem_of_app. left.
    apply list_elem_of_further, list_elem_of_further, list_elem_of_here.
Qed.

Section BannerBlocks.
Context (rt : runtime).

Lemma display_correction_events s qcm opts expl correct :
  show_correction s = true →
  current_qcm s = Some qcm →
  mcq_fields qcm opts expl correct →
  display_correction rt s =
    (inr tt, s,
     correction_events rt opts expl correct (user_selection s)
       (is_fully_correct (user_selection s) (JStr <$> sorted_strs correct))).
Proof. intros Hshow Hqcm Hfields. by rewrite (display_correction_typed rt s qcm opts expl correct). Qed.

(** X16. For a question whose correct answers are distinct option keys, and
    a recorded selection that is sorted, without repetition and made of
    option keys (as every run leaves it), the correction displays "Bravo"
    exactly when every block of the correction is green. *)
Theorem banner_agrees_with_blocks s qcm opts expl correct :
  show_correction s = true →
  current_qcm s = Some qcm →
  mcq_fields qcm opts expl correct →
  selection_sorted s →
  selection_within_options s →
  NoDup correct →
  (∀ k, k ∈ correct → is_Some (opts !! k)) →
  banner true ∈ trace (display_correction rt s)
  ↔ ∀ key, key ∈ option_keys opts →
      color (grade_option (JStr <$> sorted_strs correct) (user_selection s) key)
      = green.
Proof.
  intros Hshow Hqcm Hfields [Hsorted Hnodup] Hwithin Hcorrect Hkeys.
  rewrite (display_correction_events s qcm opts expl correct) by done.
  cbn [trace snd]. rewrite banner_in_correction_events.
  apply fully_correct_iff_all_green; try done.
  destruct Hfields as (Hopts & _). by apply (Hwithin qcm opts).
Qed.

(** X17. The decoded question is not checked: when its correct answers
    repeat a key, or name a key that is no option, no selection the form can
    record matches them, and the correction displays the failure banner
    whatever the user ticked. *)
Theorem flawed_answers_never_match s qcm opts expl correct :
  show_correction s = true →
  current_qcm s = Some qcm →
  mcq_fields qcm opts expl correct →
  selection_sorted s →
  selection_within_options s →
  ¬ NoDup correct ∨ (∃ k, k ∈ correct ∧ opts !! k = None) →
  display_correction rt s =
    (inr tt, s, correction_events rt opts expl correct (user_selection s) false).
Proof.
  intros Hshow Hqcm Hfields [Hsorted Hnodup] Hwithin Hflaw.
  rewrite (display_correction_events s qcm opts expl correct) by done.
  assert (Hfalse : is_fully_correct (user_selection s) (JStr <$> sorted_strs correct)
                   = false); [|by rewrite Hfalse].
  apply not_true_is_false. unfold is_fully_correct. rewrite list_eq_fmap.
  intros Heq. destruct Hflaw as [Hrepeat|(k & Hk & Hnone)].
  - apply Hrepeat. apply NoDup_sorted_strs. by rewrite <- Heq.
  - destruct Hfields as (Hopts & _).
    destruct (Hwithin qcm opts Hqcm Hopts k) as [v Hv]; [|congruence].
    rewrite Heq. by apply elem_of_sorted_strs.
Qed.
End BannerBlocks.

Lemma sample_options_lookup : sample_qcm !! k_options = Some (JObj sample_options).
Proof. vm_compute. reflexivity. Qed.

Lemma sample_option_keys : option_keys sample_options = [u "A"; u "B"; u "C"].
Proof. vm_compute. reflexivity. Qed.

Lemma banner_agrees_with_blocks_witness :
  banner true ∈ trace (display_correction sample_runtime state_answered).
Proof.
  apply (banner_agrees_with_blocks sample_runtime state_answered sample_qcm
           sample_options sample_explanations [u "C"; u "A"]).
  - reflexivity.
  - reflexivity.
  - exact sample_mcq_fields.
  - split; [repeat constructor|by_computation].
  - intros qcm opts [= <-] Hopts key Hkey.
    rewrite sample_options_lookup in Hopts. injection Hopts as <-.
    apply elem_of_option_keys. rewrite sample_option_keys.
    apply elem_of_cons in Hkey as [->|Hkey]; [by_computation|].
    apply elem_of_cons in Hkey as [->|Hkey]; [by_computation|].
    by apply elem_of_nil in Hkey.
  - by_computation.
  - intros k Hk. apply elem_of_option_keys. rewrite sample_option_keys.
    apply elem_of_cons in Hk as [->|Hk]; [by_computation|].
    apply elem_of_cons in Hk as [->|Hk]; [by_computation|].
    by apply elem_of_nil in Hk.
  - intros key Hkey. rewrite sample_option_keys in Hkey.
    apply elem_of_cons in Hkey as [->|Hkey]; [vm_compute; reflexivity|].
    apply elem_of_cons in Hkey as [->|Hkey]; [vm_compute; reflexivity|].
    apply elem_of_cons in Hkey as [->|Hkey]; [vm_compute; reflexivity|].
    by apply elem_of_nil in Hkey.
Defined.

Lemma flawed_answers_never_match_witness :
  trace (display_correction sample_runtime state_repeated_answer)
  = correction_events sample_runtime sample_options sample_explanations
      [u "A"; u "A"] [u "A"] false.
Proof.
  rewrite (flawed_answers_never_match sample_runtime state_repeated_answer
             qcm_repeated_answer sample_options sample_explanations [u "A"; u "A"]).
  - reflexivity.
  - reflexivity.
  - reflexivity.
  - repeat split; vm_compute; reflexivity.
  - split; [repeat constructor|by_computation].
  - intros qcm opts [= <-] Hopts key Hkey.
    assert (Hlookup : qcm_repeated_answer !! k_options = Some (JObj sample_options))
      by (vm_compute; reflexivity).
    rewrite Hlookup in Hopts. injection Hopts as <-.
    apply elem_of_option_keys. rewrite sample_option_keys.
    apply elem_of_cons in Hkey as [->|Hkey]; [by_computation|].
    by apply elem_of_nil in Hkey.
  - left. by_computation.
Defined.

(** ** The text that is analysed *)

Lemma kept_lines_blank (course_text : str) :
  strip course_text = [] → kept_lines course_text = [].
Proof.
  intros Hblank%strip_nil_iff. rewrite Forall_forall in Hblank.
  destruct (kept_lines course_text) as [|line rest] eqn:Hkept; [done|].
  assert (Hin : line ∈ kept_lines course_text) by (rewrite Hkept; apply list_elem_of_here).
  apply list_elem_of_In, filter_In in Hin as [Hline Htruthy].
  assert (Hspace : strip line = []).
  { apply strip_nil_iff, Forall_forall. intros c Hc. apply Hblank.
    assert (Hconcat : In c (concat (splitlines course_text))).
    { apply in_concat. exists line. split; [done|by apply list_elem_of_In]. }
    rewrite concat_splitlines in Hconcat. apply filter_In in Hconcat as [Hconcat _].
    by apply list_elem_of_In. }
  by rewrite Hspace in Htruthy.
Qed.

Lemma load_course_lines (course_text : str) (s : session_state) :
  course_lines (final_state (load_course course_text s)) = kept_lines course_text.
Proof.
  destruct (decide (strip course_text = [])) as [Hblank|Hnonblank].
  - rewrite load_course_blank_run by done. by rewrite kept_lines_blank.
  - by rewrite load_course_nonblank.
Qed.

Section AnalysedText.
Context (rt : runtime) (inp : inputs).

(** X18. When "Analyser le cours" is pressed, the uploaded file wins over
    the pasted text, even when the file is empty: the pool becomes the
    non-blank lines of the file, and the pasted text is used only when no file
    is uploaded.  When the file cannot be decoded the run ends on that
    exception with the session state as it was, and with nothing displayed
    but the introduction of line 98 and the separator of line 107, which
    come before the button. *)
Theorem analysed_text (s : session_state) :
  analyse_button inp = true →
  match uploaded_file inp with
  | Some (inl e) =>
      script rt inp s
      = (inl e, s,
         [st_markdown
            (u "Chargez un cours au format `.txt` pour générer des QCM interactifs.");
          st_markdown (u "<p style='text-align: center; color: grey;'>OU</p>")])
  | Some (inr course_text) =>
      course_lines (final_state (script rt inp s)) = kept_lines course_text
  | None =>
      course_lines (final_state (script rt inp s))
      = kept_lines (course_text_input inp)
  end.
Proof.
  intros Hanalyse.
  destruct (uploaded_file inp) as [[e|course_text]|] eqn:Hupload.
  - unfold script, sidebar, read_course_text. rewrite Hanalyse, Hupload.
    by rewrite !bind_emit.
  - rewrite script_lines_from_sidebar. unfold sidebar, read_course_text.
    rewrite Hanalyse, Hupload, bind_lift_inr. apply load_course_lines.
  - rewrite script_lines_from_sidebar. unfold sidebar, read_course_text.
    rewrite Hanalyse, Hupload.
    destruct (course_text_input inp) as [|c rest]; cbn [str_truthy];
      rewrite bind_ret; apply load_course_lines.
Qed.
End AnalysedText.

Lemma analysed_text_witness :
  course_lines (final_state (script sample_runtime upload_inputs state_with_question))
  = [u "un"; u " deux "].
Proof.
  rewrite (analysed_text sample_runtime upload_inputs state_with_question eq_refl).
  reflexivity.
Defined.

(** ** What is sent to the model *)

Lemma elem_of_trace_bind {A B} (m : M A) (k : A → M B) s ev :
  ev ∈ trace (bind m k s) →
  ev ∈ trace (m s)
  ∨ ∃ a, outcome (m s) = inr a ∧ ev ∈ trace (k a (final_state (m s))).
Proof.
  rewrite trace_bind. intros [Hin|Hin]%elem_of_app; [by left|].
  destruct (outcome (m s)) as [e|a]; [by apply elem_of_nil in Hin|].
  right. by exists a.
Qed.

Lemma quiet_not_call t ev :
  Forall quiet_event t → ev ∈ t → is_model_call ev = true → False.
Proof.
  intros Hquiet Hin Hcall. rewrite Forall_forall in Hquiet.
  specialize (Hquiet ev Hin). unfold quiet_event in Hquiet. congruence.
Qed.

Section SentToModel.
Context (rt : runtime) (inp : inputs).

Lemma main_logic_call gemini_model s ev :
  ev ∈ trace (main_logic rt inp gemini_model s) →
  is_model_call ev = true →
  ev = gemini_call (build_prompt (select_fragment (course_lines s) (randint inp)))
         temperature.
Proof.
  unfold main_logic. rewrite bind_get. destruct gemini_model as [m|].
  - destruct (list_truthy (course_lines s)) eqn:Hlines;
      [|by intros ?%elem_of_nil].
    destruct (generate_button inp); [|by intros ?%elem_of_nil].
    destruct (trace_request_new_question rt inp m s) as [s0 ->];
      [by apply list_truthy_nonempty|].
    destruct (generate_cases rt (select_fragment (course_lines s) (randint inp)) m s0)
      as [[qcm_data ->]|[[msg ->]|[e ->]]]; cbn [trace snd]; intros Hin Hcall.
    + apply elem_of_cons in Hin as [->|Hin]; [done|by apply elem_of_nil in Hin].
    + apply elem_of_cons in Hin as [->|Hin]; [done|].
      apply elem_of_cons in Hin as [->|Hin]; [discriminate Hcall|].
      by apply elem_of_nil in Hin.
    + apply elem_of_cons in Hin as [->|Hin]; [done|by apply elem_of_nil in Hin].
  - destruct (list_truthy (course_lines s) && negb (str_truthy (api_key inp)));
      [|by intros ?%elem_of_nil].
    intros Hin Hcall.
    apply elem_of_cons in Hin as [->|Hin]; [discriminate Hcall|].
    by apply elem_of_nil in Hin.
Qed.

(** X19. Whatever a run of the script sends to the model is the prompt
    built, at temperature 0.6, from the window of at most 100 lines chosen in
    the pool as this run leaves it: when the course is analysed and a question
    requested in the same run, the question is about the new course. *)
Theorem call_sends_window (s : session_state) (ev : event) :
  ev ∈ trace (script rt inp s) →
  is_model_call ev = true →
  ev = gemini_call
         (build_prompt
            (select_fragment (course_lines (final_state (script rt inp s)))
               (randint inp)))
         temperature.
Proof.
  intros Hin Hcall. rewrite script_lines_from_sidebar.
  unfold script in Hin. rewrite !trace_bind_emit in Hin.
  apply elem_of_cons in Hin as [->|Hin]; [discriminate Hcall|].
  apply elem_of_cons in Hin as [->|Hin]; [discriminate Hcall|].
  apply elem_of_trace_bind in Hin as [Hin|([] & _ & Hin)];
    [by destruct (quiet_not_call _ ev (quiet_sidebar inp s))|].
  set (s1 := final_state (sidebar inp s)) in *.
  apply elem_of_trace_bind in Hin as [Hin|(gemini_model & _ & Hin)];
    [by destruct (quiet_not_call _ ev (quiet_configure_model rt inp s1))|].
  rewrite (reads_only_configure_model rt inp s1) in Hin.
  apply elem_of_trace_bind in Hin as [Hin|([] & _ & Hin)];
    [by apply (main_logic_call gemini_model s1)|].
  exfalso. revert Hin Hcall. apply quiet_not_call.
  apply emits_bind; [apply quiet_display_qcm|intros _].
  apply quiet_display_correction.
Qed.
End SentToModel.

Lemma call_sends_window_witness :
  gemini_call (build_prompt (u "ligne")) temperature
  = gemini_call
      (build_prompt
         (select_fragment
            (course_lines
               (final_state (script sample_runtime generate_inputs state_with_question)))
            (randint generate_inputs)))
      temperature.
Proof.
  apply (call_sends_window sample_runtime generate_inputs state_with_question);
    [|reflexivity].
  vm_compute. apply list_elem_of_further, list_elem_of_further, list_elem_of_here.
Defined.

(** ** A decoded question that lacks a field *)

Lemma bind_lift_inl {A B} (e : exn) (k : A → M B) s :
  bind (lift (inl e)) k s = (inl e, s, []).
Proof. reflexivity. Qed.

Section LackingField.
Context (rt : runtime) (inp : inputs).

(** X20. The display of a question stops at the first field it cannot
    read: without [question] it raises [KeyError] after the fragment, and
    without [options], or with [options] that is no object, it raises after
    the question.  No box is drawn, and whether or not the form button is
    reported pressed, nothing is recorded: the session state stays as it
    was. *)
Theorem question_display_stops s qcm fragment_source :
  qcm_truthy (current_qcm s) = Some qcm →
  qcm !! k_fragment_source = Some fragment_source →
  let opening :=
    [st_markdown (u "---");
     st_info (u "*" ++ format_value rt fragment_source ++ u "*")] in
  (qcm !! k_question = None →
   display_qcm rt inp s = (inl (KeyError k_question), s, opening))
  ∧ (∀ question,
       qcm !! k_question = Some question →
       qcm !! k_options = None →
       display_qcm rt inp s
       = (inl (KeyError k_options), s, opening ++ [st_subheader question]))
  ∧ (∀ question options,
       qcm !! k_question = Some question →
       qcm !! k_options = Some options →
       (∀ opts, options ≠ JObj opts) →
       display_qcm rt inp s
       = (inl (AttributeError
                 (u "'" ++ type_name options ++ u "' object has no attribute 'keys'")),
          s, opening ++ [st_subheader question])).
Proof.
  intros Hq Hfragment opening.
  split; [|split].
  - intros Hquestion. unfold display_qcm. rewrite bind_get, Hq, bind_emit.
    unfold dict_getitem. rewrite Hfragment, bind_lift_inr, bind_emit.
    by rewrite Hquestion, bind_lift_inl.
  - intros question Hquestion Hoptions.
    unfold display_qcm. rewrite bind_get, Hq, bind_emit.
    unfold dict_getitem. rewrite Hfragment, bind_lift_inr, bind_emit.
    rewrite Hquestion, bind_lift_inr, bind_emit.
    by rewrite Hoptions, bind_lift_inl.
  - intros question options Hquestion Hoptions Hobject.
    unfold display_qcm. rewrite bind_get, Hq, bind_emit.
    unfold dict_getitem. rewrite Hfragment, bind_lift_inr, bind_emit.
    rewrite Hquestion, bind_lift_inr, bind_emit.
    rewrite Hoptions, bind_lift_inr.
    destruct options as [| | | | | |opts]; cbn [py_keys];
      try (by rewrite bind_lift_inl).
    by destruct (Hobject opts).
Qed.

(** X21. The correction stops at the first field it cannot read: without
    [correct_answers] it raises [KeyError] before anything is displayed; and
    without [explanations], for a question that has an option, it raises at
    the first block, after the banner. *)
Theorem correction_display_stops s qcm :
  show_correction s = true →
  qcm_truthy (current_qcm s) = Some qcm →
  (qcm !! k_correct_answers = None →
   display_correction rt s = (inl (KeyError k_correct_answers), s, []))
  ∧ (∀ opts correct,
       qcm !! k_options = Some (JObj opts) →
       qcm !! k_correct_answers = Some (JArr (JStr <$> correct)) →
       qcm !! k_explanations = None →
       opts ≠ ∅ →
       display_correction rt s
       = (inl (KeyError k_explanations), s,
          [st_markdown (u "---"); st_subheader (JStr (u "Correction détaillée"));
           banner (is_fully_correct (user_selection s)
                     (JStr <$> sorted_strs correct))])).
Proof.
  intros Hshow Hq. split.
  - intros Hcorrect. unfold display_correction. rewrite bind_get, Hshow, Hq.
    unfold dict_getitem. by rewrite Hcorrect, bind_lift_inl.
  - intros opts correct Hopts Hcorrect Hexpl Hnonempty.
    assert (Hkeys : ∃ key keys, option_keys opts = key :: keys ∧ is_Some (opts !! key)).
    { destruct (option_keys opts) as [|key keys] eqn:Hkeys.
      - exfalso. apply Hnonempty. apply map_empty. intros k.
        destruct (opts !! k) as [v|] eqn:Hk; [|done].
        assert (Hin : k ∈ option_keys opts) by (apply elem_of_option_keys; by eexists).
        rewrite Hkeys in Hin. by apply elem_of_nil in Hin.
      - exists key, keys. split; [done|]. apply elem_of_option_keys.
        rewrite Hkeys. apply list_elem_of_here. }
    destruct Hkeys as (key & keys & Hkeys & [value Hvalue]).
    unfold display_correction. rewrite bind_get, Hshow, Hq.
    unfold dict_getitem. rewrite Hcorrect, bind_lift_inr, py_sorted_strs, bind_lift_inr.
    rewrite !bind_emit.
    assert (Hloop :
      (let* options := lift (match qcm !! k_options with
                             | Some v => inr v | None => inl (KeyError k_options) end) in
       let* keys := lift (py_keys options) in
       for_each (sorted_strs keys)
         (correction_block rt qcm (JStr <$> sorted_strs correct) (user_selection s))) s
      = (inl (KeyError k_explanations), s, [])).
    { rewrite Hopts, bind_lift_inr. simpl py_keys. rewrite bind_lift_inr.
      fold (option_keys opts). rewrite Hkeys. cbn [for_each].
      unfold bind at 1, correction_block, dict_getitem.
      rewrite Hopts, bind_lift_inr. simpl subscript. unfold dict_getitem.
      by rewrite Hvalue, bind_lift_inr, Hexpl, bind_lift_inl. }
    unfold banner.
    destruct (is_fully_correct (user_selection s) (JStr <$> sorted_strs correct));
      rewrite bind_emit, Hloop; reflexivity.
Qed.
End LackingField.

Lemma question_display_stops_witness :
  display_qcm sample_runtime submit_inputs state_without_question_field
  = (inl (KeyError k_question), state_without_question_field,
     [st_markdown (u "---"); st_info (u "*ligne*")]).
Proof.
  destruct (question_display_stops sample_runtime submit_inputs
              state_without_question_field qcm_without_question (JStr (u "ligne")))
    as [Hquestion _].
  - vm_compute. reflexivity.
  - vm_compute. reflexivity.
  - rewrite Hquestion by (vm_compute; reflexivity). reflexivity.
Defined.

Lemma correction_display_stops_witness :
  display_correction sample_runtime state_without_answers
  = (inl (KeyError k_correct_answers), state_without_answers, []).
Proof.
  destruct (correction_display_stops sample_runtime state_without_answers
              qcm_without_answers) as [Hanswers _].
  - reflexivity.
  - vm_compute. reflexivity.
  - apply Hanswers. vm_compute. reflexivity.
Defined.
